(** * The tiered memory engine ([advanced_memory/memory_handler.py])

    A shallow embedding of [AdvancedMemory]: the three tier mappings, the
    placement policy [_determine_tier], the reorganizer, the lookup path and
    the six commands behind [handle_tool_call], followed by the properties
    the specification states about them and by further properties of the
    code.

    Conventions of the embedding.
    - A Python [str] is a list of Unicode code points ([N]); [len] counts
      code points, as Python's does.
    - A Python [dict] is an insertion-ordered association list: the
      promotion pass of the reorganizer depends on the iteration order.
    - [datetime.now().timestamp()] is an input: every operation takes the
      clock reading [now], a whole number of seconds.  The few readings
      made inside one operation are taken to be equal.
    - The files under the tier directories are written but never read back
      by a command, so the disk is not part of the state.  Disk operations
      are taken to succeed: what the engine does when a write, an unlink or
      a rename raises (a clean name that is no file name, such as the empty
      one; a full or read-only disk) is outside this development.  The
      engine starts on an empty base directory, so [_load_memories] finds
      nothing.
    - Python integers are [Z]. *)

From Stdlib Require Import ZArith NArith List Bool Lia String Ascii QArith_base.
From Stdlib Require Import Numbers.DecimalString.
Import ListNotations.

Local Open Scope Z_scope.

(* ================================================================== *)
(** * Python strings *)
(* ================================================================== *)

Module Py.

Definition char := N.
Definition str := list char.

(** An ASCII literal of the source. *)
Definition lit (s : string) : str :=
  map N_of_ascii (list_ascii_of_string s).

Definition len {A} (l : list A) : Z := Z.of_nat (List.length l).

Fixpoint str_eqb (a b : str) : bool :=
  match a, b with
  | [], [] => true
  | x :: a', y :: b' => N.eqb x y && str_eqb a' b'
  | _, _ => false
  end.

(** [s.startswith(p)] *)
Fixpoint startswith (p s : str) : bool :=
  match p, s with
  | [], _ => true
  | x :: p', y :: s' => N.eqb x y && startswith p' s'
  | _ :: _, [] => false
  end.

(** [old in s] *)
Fixpoint contains (old s : str) : bool :=
  startswith old s ||
  match s with
  | [] => false
  | _ :: s' => contains old s'
  end.

(** [s.count(old)] for a non-empty [old]: matches are taken left to right
    and do not overlap; [skip] is the number of characters of the current
    match still to be passed over. *)
Fixpoint count_from (old : str) (skip : nat) (s : str) : Z :=
  match s with
  | [] => 0
  | _ :: s' =>
      match skip with
      | S k => count_from old k s'
      | O => if startswith old s
             then 1 + count_from old (List.length old - 1) s'
             else count_from old 0 s'
      end
  end.

(** [s.count(old)]; the empty string is counted between all characters
    and at both ends. *)
Definition count (old s : str) : Z :=
  match old with
  | [] => len s + 1
  | _ :: _ => count_from old 0 s
  end.

Fixpoint replace_from (old new : str) (skip : nat) (s : str) : str :=
  match s with
  | [] => []
  | c :: s' =>
      match skip with
      | S k => replace_from old new k s'
      | O => if startswith old s
             then new ++ replace_from old new (List.length old - 1) s'
             else c :: replace_from old new 0 s'
      end
  end.

(** [s.replace(old, new)] *)
Definition replace (old new s : str) : str :=
  match old with
  | [] => new ++ flat_map (fun c => c :: new) s
  | _ :: _ => replace_from old new 0 s
  end.

(** Put a character in front of the first piece. *)
Definition cons_head (c : char) (pieces : list str) : list str :=
match pieces with
| p :: ps => (c :: p) :: ps
| [] => [[c]]
end.

(** The pieces between the matches [count] counts and [replace] replaces:
  [s.split(old)] for a non-empty [old]. *)
Fixpoint split_from (old : str) (skip : nat) (s : str) : list str :=
match s with
| [] => [[]]
| c :: s' =>
    match skip with
    | S k => split_from old k s'
    | O => if startswith old s
           then [] :: split_from old (List.length old - 1) s'
           else cons_head c (split_from old 0 s')
    end
end.

Definition split (old s : str) : list str := split_from old 0 s.

(** The characters at which [str.splitlines] ends a line. *)
Definition is_line_boundary (c : char) : bool :=
  existsb (N.eqb c) [10; 13; 11; 12; 28; 29; 30; 133; 8232; 8233]%N.

(** [s.splitlines()]: [cur] is the current line, reversed.  A carriage
    return followed by a line feed ends one line, and a final line break
    opens no further line. *)
Fixpoint splitlines_from (cur s : str) : list str :=
  match s with
  | [] => match cur with [] => [] | _ :: _ => [rev cur] end
  | c :: s' =>
      if is_line_boundary c then
        rev cur ::
        match s' with
        | d :: s'' =>
            if N.eqb c 13 && N.eqb d 10
            then splitlines_from [] s''
            else splitlines_from [] s'
        | [] => splitlines_from [] s'
        end
      else splitlines_from (c :: cur) s'
  end.

Definition splitlines (s : str) : list str := splitlines_from [] s.

(** [sep.join(parts)] *)
Fixpoint join (sep : str) (parts : list str) : str :=
  match parts with
  | [] => []
  | [p] => p
  | p :: rest => p ++ sep ++ join sep rest
  end.

Definition newline : str := [10%N].

(** [l[start:stop]] for integer bounds of either sign. *)
Definition slice {A} (l : list A) (start stop : Z) : list A :=
  let n := len l in
  let norm i := if i <? 0 then Z.max 0 (i + n) else Z.min i n in
  let a := norm start in
  let b := norm stop in
  firstn (Z.to_nat (b - a)) (skipn (Z.to_nat a) l).

(** [str(n)] for an integer. *)
Definition str_of_Z (z : Z) : str :=
  lit (NilEmpty.string_of_int (Z.to_int z)).

(** Lexicographic order on code points, the order of [sorted] on strings. *)
Fixpoint str_leb (a b : str) : bool :=
  match a, b with
  | [], _ => true
  | _ :: _, [] => false
  | x :: a', y :: b' =>
      if N.ltb x y then true
      else if N.eqb x y then str_leb a' b' else false
  end.

Fixpoint insert_sorted (x : str) (l : list str) : list str :=
  match l with
  | [] => [x]
  | y :: l' => if str_leb x y then x :: l else y :: insert_sorted x l'
  end.

(** [sorted(items)] *)
Definition sorted (l : list str) : list str :=
  fold_right insert_sorted [] l.

(** Number of bytes of the UTF-8 encoding of one code point. *)
Definition utf8_width (c : char) : Z :=
  if (c <? 128)%N then 1
  else if (c <? 2048)%N then 2
  else if (c <? 65536)%N then 3
  else 4.

(** [len(s.encode("utf-8"))], the size of the file [write_text] produces. *)
Definition utf8_len (s : str) : Z :=
  fold_right (fun c acc => utf8_width c + acc) 0 s.

End Py.

Import Py.

(* ================================================================== *)
(** * Insertion-ordered dictionaries *)
(* ================================================================== *)

Module OD.

Definition odict (V : Type) := list (str * V).

Section Ops.
Context {V : Type}.

(** [d.get(k)] *)
Fixpoint get (k : str) (d : odict V) : option V :=
  match d with
  | [] => None
  | (k', v) :: d' => if str_eqb k k' then Some v else get k d'
  end.

(** [k in d] *)
Definition mem (k : str) (d : odict V) : bool :=
  match get k d with Some _ => true | None => false end.

(** [d[k] = v]: an existing key keeps its position, a new one goes last. *)
Fixpoint set (k : str) (v : V) (d : odict V) : odict V :=
  match d with
  | [] => [(k, v)]
  | (k', v') :: d' =>
      if str_eqb k k' then (k', v) :: d' else (k', v') :: set k v d'
  end.

(** [del d[k]] / [d.pop(k, None)].  A list built by [set] holds a key
    once; the entry is removed wherever it stands. *)
Fixpoint pop (k : str) (d : odict V) : odict V :=
  match d with
  | [] => []
  | (k', v') :: d' =>
      if str_eqb k k' then pop k d' else (k', v') :: pop k d'
  end.

(** [d.items()]: every key once, in insertion order. *)
Fixpoint items (d : odict V) : list (str * V) :=
  match d with
  | [] => []
  | (k, v) :: d' =>
      (k, v) :: filter (fun kv => negb (str_eqb (fst kv) k)) (items d')
  end.

Definition values (d : odict V) : list V := map snd (items d).
Definition keys (d : odict V) : list str := map fst (items d).

End Ops.

End OD.


(* ================================================================== *)
(** * Data model *)
(* ================================================================== *)

(** [class MemoryTier(Enum)], in declaration order. *)
Inductive MemoryTier := WORKING | ARCHIVAL | OVERFLOW.

Definition tier_eqb (a b : MemoryTier) : bool :=
  match a, b with
  | WORKING, WORKING | ARCHIVAL, ARCHIVAL | OVERFLOW, OVERFLOW => true
  | _, _ => false
  end.

(** [tier.value] *)
Definition tier_value (t : MemoryTier) : str :=
  match t with
  | WORKING => lit "working"
  | ARCHIVAL => lit "archival"
  | OVERFLOW => lit "overflow"
  end.

(** [@dataclass class MemoryBlock] *)
Record MemoryBlock := mkBlock {
  content : str;
  tier : MemoryTier;
  access_count : Z;
  last_access : Z;
  importance_score : Q;
  created_at : Z;
  size_bytes : Z
}.

Definition set_content (c : str) (b : MemoryBlock) : MemoryBlock :=
  mkBlock c (tier b) (access_count b) (last_access b)
          (importance_score b) (created_at b) (size_bytes b).

Definition set_tier (t : MemoryTier) (b : MemoryBlock) : MemoryBlock :=
  mkBlock (content b) t (access_count b) (last_access b)
          (importance_score b) (created_at b) (size_bytes b).

Definition set_size_bytes (n : Z) (b : MemoryBlock) : MemoryBlock :=
  mkBlock (content b) (tier b) (access_count b) (last_access b)
          (importance_score b) (created_at b) n.

(** [MemoryBlock.update_access] *)
Definition update_access (now : Z) (b : MemoryBlock) : MemoryBlock :=
  mkBlock (content b) (tier b) (access_count b + 1) now
          (importance_score b) (created_at b) (size_bytes b).

(** The fields of an [AdvancedMemory] instance that commands read or write.
    [memory_blocks] is kept as one dictionary per tier. *)
Record AdvancedMemory := mkMem {
  working_blocks : OD.odict MemoryBlock;
  archival_blocks : OD.odict MemoryBlock;
  overflow_blocks : OD.odict MemoryBlock;
  access_patterns : OD.odict (list Z);
  predicted_next : list str;
  operation_counts : OD.odict Z;
  reorganize_counter : Z
}.

(** [self.memory_blocks[t]] *)
Definition memory_blocks (self : AdvancedMemory) (t : MemoryTier)
  : OD.odict MemoryBlock :=
  match t with
  | WORKING => working_blocks self
  | ARCHIVAL => archival_blocks self
  | OVERFLOW => overflow_blocks self
  end.

Definition set_blocks (t : MemoryTier) (d : OD.odict MemoryBlock)
    (self : AdvancedMemory) : AdvancedMemory :=
  match t with
  | WORKING =>
      mkMem d (archival_blocks self) (overflow_blocks self)
            (access_patterns self) (predicted_next self)
            (operation_counts self) (reorganize_counter self)
  | ARCHIVAL =>
      mkMem (working_blocks self) d (overflow_blocks self)
            (access_patterns self) (predicted_next self)
            (operation_counts self) (reorganize_counter self)
  | OVERFLOW =>
      mkMem (working_blocks self) (archival_blocks self) d
            (access_patterns self) (predicted_next self)
            (operation_counts self) (reorganize_counter self)
  end.

Definition set_access_patterns (a : OD.odict (list Z)) (self : AdvancedMemory) :=
  mkMem (working_blocks self) (archival_blocks self) (overflow_blocks self)
        a (predicted_next self) (operation_counts self)
        (reorganize_counter self).

Definition set_predicted_next (p : list str) (self : AdvancedMemory) :=
  mkMem (working_blocks self) (archival_blocks self) (overflow_blocks self)
        (access_patterns self) p (operation_counts self)
        (reorganize_counter self).

Definition set_operation_counts (o : OD.odict Z) (self : AdvancedMemory) :=
  mkMem (working_blocks self) (archival_blocks self) (overflow_blocks self)
        (access_patterns self) (predicted_next self) o
        (reorganize_counter self).

Definition set_reorganize_counter (n : Z) (self : AdvancedMemory) :=
  mkMem (working_blocks self) (archival_blocks self) (overflow_blocks self)
        (access_patterns self) (predicted_next self) (operation_counts self)
        n.

(** [TIER_LIMITS]; [None] is [float('inf')]. *)
Definition TIER_LIMITS (t : MemoryTier) : option Z :=
  match t with
  | WORKING => Some 4096
  | ARCHIVAL => Some 102400
  | OVERFLOW => None
  end.

(** [x <= self.TIER_LIMITS[t]] *)
Definition within_limit (x : Z) (t : MemoryTier) : bool :=
  match TIER_LIMITS t with
  | Some l => x <=? l
  | None => true
  end.

Definition reorganize_threshold : Z := 10.

(** The engine after [__init__] on an empty base directory. *)
Definition init : AdvancedMemory := mkMem [] [] [] [] [] [] 0.

(** [self.operation_counts[k] += 1] on a [defaultdict(int)] *)
Definition bump (k : str) (self : AdvancedMemory) : AdvancedMemory :=
  let n := match OD.get k (operation_counts self) with
           | Some n => n
           | None => 0
           end in
  set_operation_counts (OD.set k (n + 1) (operation_counts self)) self.

(* ================================================================== *)
(** * Placement policy, lookup and moves *)
(* ================================================================== *)

(** [sum(b.size_bytes for b in self.memory_blocks[WORKING].values())] *)
Definition working_size (self : AdvancedMemory) : Z :=
  fold_right (fun b acc => size_bytes b + acc) 0
             (OD.values (working_blocks self)).

(** The list comprehension of [_determine_tier]: the recorded accesses
    less than 300 seconds old. *)
Definition recent (now : Z) (ts : list Z) : list Z :=
  filter (fun t => now - t <? 300) ts.

(** The size-based part of [_determine_tier]. *)
Definition tier_by_size (self : AdvancedMemory) (size : Z) : MemoryTier :=
  if within_limit size WORKING && within_limit (working_size self + size) WORKING
  then WORKING
  else if within_limit size ARCHIVAL then ARCHIVAL
  else OVERFLOW.

(** [AdvancedMemory._determine_tier] *)
Definition _determine_tier (now : Z) (self : AdvancedMemory)
    (path content : str) : MemoryTier :=
  let size := len content in
  match OD.get path (access_patterns self) with
  | Some ts =>
      let recent_accesses := len (recent now ts) in
      if 3 <? recent_accesses then WORKING else tier_by_size self size
  | None => tier_by_size self size
  end.

(** [AdvancedMemory._move_between_tiers] *)
Definition _move_between_tiers (path : str) (from_tier to_tier : MemoryTier)
    (self : AdvancedMemory) : AdvancedMemory :=
  match OD.get path (memory_blocks self from_tier) with
  | None => self
  | Some block =>
      let self1 :=
        set_blocks from_tier (OD.pop path (memory_blocks self from_tier)) self in
      set_blocks to_tier
        (OD.set path (set_tier to_tier block) (memory_blocks self1 to_tier))
        self1
  end.

(** [AdvancedMemory._validate_path], the clean name. *)
Definition _validate_path (path : str) : str :=
  let path1 := if startswith (lit "/memories") path then skipn 9 path else path in
  let path2 := if startswith (lit "/") path1 then skipn 1 path1 else path1 in
  replace (lit "/") (lit "_") path2.

(** The first tier of [tiers] that holds [name]. *)
Fixpoint first_tier_with (self : AdvancedMemory) (name : str)
    (tiers : list MemoryTier) : option (MemoryTier * MemoryBlock) :=
  match tiers with
  | [] => None
  | t :: rest =>
      match OD.get name (memory_blocks self t) with
      | Some b => Some (t, b)
      | None => first_tier_with self name rest
      end
  end.

(** [AdvancedMemory._find_in_tiers] *)
Definition _find_in_tiers (self : AdvancedMemory) (clean_name : str)
  : option (MemoryTier * MemoryBlock) :=
  let all := first_tier_with self clean_name [WORKING; ARCHIVAL; OVERFLOW] in
  if existsb (str_eqb clean_name) (predicted_next self) then
    match first_tier_with self clean_name [WORKING; ARCHIVAL] with
    | Some r => Some r
    | None => all
    end
  else all.

(* ================================================================== *)
(** * Access tracker and predictor *)
(* ================================================================== *)

(** [self.access_patterns[k].append(now)] on a [defaultdict(list)] *)
Definition record_access (now : Z) (k : str) (self : AdvancedMemory)
  : AdvancedMemory :=
  let ts := match OD.get k (access_patterns self) with
            | Some ts => ts
            | None => []
            end in
  set_access_patterns (OD.set k (ts ++ [now]) (access_patterns self)) self.

(** [AdvancedMemory._predict_next_access]; the prediction set is kept as
    the list of its members. *)
Definition _predict_next_access (self : AdvancedMemory) (current_path : str)
  : AdvancedMemory :=
  let predicted :=
    match OD.get current_path (access_patterns self) with
    | Some current_times =>
        match rev current_times with
        | last_time :: _ =>
            map fst
              (filter
                 (fun '(other_path, times) =>
                    negb (str_eqb other_path current_path) &&
                    existsb (fun t => Z.abs (t - last_time) <? 10) times)
                 (OD.items (access_patterns self)))
        | [] => []
        end
    | None => []
    end in
  set_predicted_next predicted self.

(* ================================================================== *)
(** * Reorganizer *)
(* ================================================================== *)

(** One iteration of the promotion loop. *)
Definition promote_step (now : Z) (self : AdvancedMemory)
    (item : str * MemoryBlock) : AdvancedMemory :=
  let '(path, block) := item in
  if (5 <? access_count block) && (now - last_access block <? 300) then
    if within_limit (working_size self + size_bytes block) WORKING
    then _move_between_tiers path ARCHIVAL WORKING self
    else self
  else self.

(** One iteration of the demotion loop. *)
Definition demote_step (now : Z) (self : AdvancedMemory)
    (item : str * MemoryBlock) : AdvancedMemory :=
  let '(path, block) := item in
  if 600 <? now - last_access block
  then _move_between_tiers path WORKING ARCHIVAL self
  else self.

(** One iteration of the loop that moves very old items to overflow. *)
Definition archive_step (now : Z) (self : AdvancedMemory)
    (item : str * MemoryBlock) : AdvancedMemory :=
  let '(path, block) := item in
  if 3600 <? now - last_access block
  then _move_between_tiers path ARCHIVAL OVERFLOW self
  else self.

(** Each loop runs over [list(d.items())], the items when the loop starts. *)
Definition promote_pass (now : Z) (self : AdvancedMemory) : AdvancedMemory :=
  fold_left (promote_step now) (OD.items (archival_blocks self)) self.

Definition demote_pass (now : Z) (self : AdvancedMemory) : AdvancedMemory :=
  fold_left (demote_step now) (OD.items (working_blocks self)) self.

Definition archive_pass (now : Z) (self : AdvancedMemory) : AdvancedMemory :=
  fold_left (archive_step now) (OD.items (archival_blocks self)) self.

(** [AdvancedMemory._reorganize_memories] *)
Definition _reorganize_memories (now : Z) (self : AdvancedMemory)
  : AdvancedMemory :=
  archive_pass now (demote_pass now (promote_pass now self)).

(** [AdvancedMemory._reorganize_if_needed] *)
Definition _reorganize_if_needed (now : Z) (self : AdvancedMemory)
  : AdvancedMemory :=
  let self1 := set_reorganize_counter (reorganize_counter self + 1) self in
  if reorganize_threshold <=? reorganize_counter self1
  then set_reorganize_counter 0 (_reorganize_memories now self1)
  else self1.

(* ================================================================== *)
(** * Commands *)
(* ================================================================== *)

(** Exceptions a handler can raise; [exn_str] is [str(e)].  The message
    texts are the interpreter's. *)
Inductive exn :=
| ValueError (msg : str)
| TypeError (msg : str).

Definition exn_str (e : exn) : str :=
  match e with
  | ValueError msg => msg
  | TypeError msg => msg
  end.

(** How a call ends: with a returned value or with a raised exception. *)
Inductive outcome :=
| Returned (s : str)
| Raised (e : exn).

(** The line of the root listing for one block. *)
Definition listing_item (t : MemoryTier) (name : str) (block : MemoryBlock)
  : str :=
  let tier_indicator :=
    match t with
    | WORKING => [128293%N]
    | ARCHIVAL => [128218%N]
    | OVERFLOW => [129482%N]
    end in
  tier_indicator ++ lit " " ++ name ++ lit " (" ++
  str_of_Z (size_bytes block) ++ lit "B, tier: " ++ tier_value t ++ lit ")".

Definition listing (self : AdvancedMemory) : str :=
  let items :=
    flat_map
      (fun t => map (fun '(name, block) => listing_item t name block)
                    (OD.items (memory_blocks self t)))
      [WORKING; ARCHIVAL; OVERFLOW] in
  match items with
  | [] => lit "Directory: /memories" ++ newline ++ lit "(empty)"
  | _ :: _ => lit "Directory: /memories" ++ newline ++
              join newline (sorted items)
  end.

(** The tail of [view]: the whole content, or the lines of [view_range]. *)
Definition view_content (content : str) (view_range : option (list Z))
  : outcome :=
  match view_range with
  | None | Some [] => Returned content
  | Some [start; end_] =>
      let lines := splitlines content in
      let start := Z.max 0 (start - 1) in
      let end_ := Z.min (len lines) end_ in
      Returned (join newline (slice lines start end_))
  | Some [_] =>
      Raised (ValueError (lit "not enough values to unpack (expected 2, got 1)"))
  | Some (_ :: _ :: _ :: _) =>
      Raised (ValueError (lit "too many values to unpack (expected 2)"))
  end.

(** [AdvancedMemory.view] *)
Definition view (now : Z) (self : AdvancedMemory) (path : str)
    (view_range : option (list Z)) : outcome * AdvancedMemory :=
  let clean_name := _validate_path path in
  if str_eqb path (lit "/memories") || str_eqb path [] then
    (Returned (listing self), self)
  else
    match _find_in_tiers self clean_name with
    | None => (Returned (lit "Error: Path does not exist: " ++ path), self)
    | Some (tier, block) =>
        let self1 :=
          set_blocks tier
            (OD.set clean_name (update_access now block)
                    (memory_blocks self tier)) self in
        let self2 := record_access now clean_name self1 in
        let self3 := _predict_next_access self2 clean_name in
        let self4 := bump (lit "view_" ++ tier_value tier) self3 in
        (view_content (content block) view_range, self4)
    end.

(** The block [create] builds. *)
Definition new_block (now : Z) (file_text : str) (tier : MemoryTier)
  : MemoryBlock :=
  mkBlock file_text tier 0 now (1 # 2) now (len file_text).

(** [AdvancedMemory.create] *)
Definition create (now : Z) (self : AdvancedMemory) (path file_text : str)
  : outcome * AdvancedMemory :=
  let clean_name := _validate_path path in
  let tier := _determine_tier now self clean_name file_text in
  let block := new_block now file_text tier in
  let self1 :=
    set_blocks tier (OD.set clean_name block (memory_blocks self tier)) self in
  (Returned (lit "Created file: " ++ path ++ lit " (tier: " ++
             tier_value tier ++ lit ")"),
   self1).

(** What [str_replace] and [insert] share after computing the new content:
    the block is updated in place, the placement policy is run on the new
    content, and the block is moved when the tier differs. *)
Definition store_mutated (now : Z) (self : AdvancedMemory) (clean_name : str)
    (tier : MemoryTier) (block : MemoryBlock) (new_content : str)
  : AdvancedMemory :=
  let block1 :=
    update_access now
      (set_size_bytes (len new_content) (set_content new_content block)) in
  let self1 :=
    set_blocks tier (OD.set clean_name block1 (memory_blocks self tier)) self in
  let new_tier := _determine_tier now self1 clean_name (content block1) in
  if negb (tier_eqb new_tier tier)
  then _move_between_tiers clean_name tier new_tier self1
  else self1.

(** [AdvancedMemory.str_replace] *)
Definition str_replace (now : Z) (self : AdvancedMemory)
    (path old_str new_str : str) : outcome * AdvancedMemory :=
  let clean_name := _validate_path path in
  match _find_in_tiers self clean_name with
  | None => (Returned (lit "Error: File does not exist: " ++ path), self)
  | Some (tier, block) =>
      if negb (contains old_str (content block)) then
        (Returned (lit "Error: String not found in file"), self)
      else
        let n := count old_str (content block) in
        let self1 :=
          store_mutated now self clean_name tier block
                        (replace old_str new_str (content block)) in
        (Returned (lit "Replaced " ++ str_of_Z n ++ lit " occurrence(s) in " ++
                   path),
         self1)
  end.

(** [while len(lines) < insert_line: lines.append("")] *)
Definition pad_lines (lines : list str) (insert_line : Z) : list str :=
  lines ++ repeat [] (Z.to_nat (insert_line - len lines)).

(** [lines.insert(i, x)] *)
Definition list_insert {A} (i : Z) (x : A) (l : list A) : list A :=
  let n := len l in
  let i' := if i <? 0 then Z.max 0 (i + n) else Z.min i n in
  firstn (Z.to_nat i') l ++ x :: skipn (Z.to_nat i') l.

(** The lines [insert] joins: the padded lines with the text put in. *)
Definition inserted_lines (lines : list str) (insert_line : Z)
    (insert_text : str) : list str :=
  list_insert insert_line insert_text (pad_lines lines insert_line).

(** [AdvancedMemory.insert] *)
Definition insert (now : Z) (self : AdvancedMemory) (path : str)
    (insert_line : Z) (insert_text : str) : outcome * AdvancedMemory :=
  let clean_name := _validate_path path in
  match _find_in_tiers self clean_name with
  | None =>
      if insert_line =? 0 then create now self path insert_text
      else
        (Returned (lit "Error: Cannot insert at line " ++ str_of_Z insert_line ++
                   lit " in non-existent file"),
         self)
  | Some (tier, block) =>
      let lines := splitlines (content block) in
      if insert_line <? 0 then
        (Returned (lit "Error: Line number must be non-negative"), self)
      else
        let lines1 := inserted_lines lines insert_line insert_text in
        let self1 :=
          store_mutated now self clean_name tier block (join newline lines1) in
        (Returned (lit "Inserted text at line " ++ str_of_Z insert_line ++
                   lit " in " ++ path),
         self1)
  end.

(** [AdvancedMemory.delete] *)
Definition delete (self : AdvancedMemory) (path : str)
  : outcome * AdvancedMemory :=
  let clean_name := _validate_path path in
  match _find_in_tiers self clean_name with
  | None => (Returned (lit "Error: Path does not exist: " ++ path), self)
  | Some (tier, block) =>
      let self1 :=
        set_blocks tier (OD.pop clean_name (memory_blocks self tier)) self in
      let self2 :=
        set_access_patterns (OD.pop clean_name (access_patterns self1)) self1 in
      let self3 :=
        set_predicted_next
          (filter (fun k => negb (str_eqb k clean_name)) (predicted_next self2))
          self2 in
      (Returned (lit "Deleted file: " ++ path), self3)
  end.

(** [AdvancedMemory.rename] *)
Definition rename (self : AdvancedMemory) (old_path new_path : str)
  : outcome * AdvancedMemory :=
  let old_name := _validate_path old_path in
  let new_name := _validate_path new_path in
  match _find_in_tiers self old_name with
  | None =>
      (Returned (lit "Error: Source path does not exist: " ++ old_path), self)
  | Some (tier, block) =>
      match _find_in_tiers self new_name with
      | Some _ =>
          (Returned (lit "Error: Destination already exists: " ++ new_path),
           self)
      | None =>
          let self1 :=
            set_blocks tier (OD.pop old_name (memory_blocks self tier)) self in
          let self2 :=
            set_blocks tier (OD.set new_name block (memory_blocks self1 tier))
                       self1 in
          let self3 :=
            match OD.get old_name (access_patterns self2) with
            | Some ts =>
                set_access_patterns
                  (OD.set new_name ts
                          (OD.pop old_name (access_patterns self2)))
                  self2
            | None => self2
            end in
          (Returned (lit "Renamed " ++ old_path ++ lit " to " ++ new_path),
           self3)
      end
  end.

(* ================================================================== *)
(** * Dispatcher *)
(* ================================================================== *)

(** A value a tool call can carry under ["command"]. *)
#[warnings="-register-all"]
Inductive pyvalue :=
| PyNone
| PyBool (b : bool)
| PyInt (z : Z)
| PyStr (s : str)
| PyList (items : list pyvalue)
| PyDict (items : list (str * pyvalue)).

(** [bool(v)] *)
Definition truthy (v : pyvalue) : bool :=
  match v with
  | PyNone => false
  | PyBool b => b
  | PyInt z => negb (z =? 0)
  | PyStr s => match s with [] => false | _ :: _ => true end
  | PyList l => match l with [] => false | _ :: _ => true end
  | PyDict l => match l with [] => false | _ :: _ => true end
  end.

(** [tool_input]: each key is absent ([None]) or present.  ["command"] holds
    any value; the other keys hold values of the types the methods
    declare. *)
Record tool_input := mkInput {
  command : option pyvalue;
  path : option str;
  view_range : option (list Z);
  file_text : option str;
  old_str : option str;
  new_str : option str;
  insert_line : option Z;
  insert_text : option str;
  old_path : option str;
  new_path : option str
}.


Definition get_or (d : str) (p : option str) : str :=
  match p with Some v => v | None => d end.

Definition handler := Z -> AdvancedMemory -> tool_input ->
                      outcome * AdvancedMemory.

(** [AdvancedMemory._handle_view] *)
Definition _handle_view : handler := fun now self input_data =>
  view now self (get_or (lit "/memories") (path input_data))
       (view_range input_data).

(** [AdvancedMemory._handle_create] *)
Definition _handle_create : handler := fun now self input_data =>
  match path input_data with
  | Some (c :: p) =>
      create now self (c :: p) (get_or [] (file_text input_data))
  | _ => (Returned (lit "Error: No path specified"), self)
  end.

(** [AdvancedMemory._handle_str_replace] *)
Definition _handle_str_replace : handler := fun now self input_data =>
  match path input_data, old_str input_data, new_str input_data with
  | Some (c :: p), Some old, Some new => str_replace now self (c :: p) old new
  | _, _, _ => (Returned (lit "Error: Missing required parameters"), self)
  end.

(** [AdvancedMemory._handle_insert] *)
Definition _handle_insert : handler := fun now self input_data =>
  match path input_data, insert_line input_data with
  | Some (c :: p), Some line =>
      insert now self (c :: p) line (get_or [] (insert_text input_data))
  | _, _ => (Returned (lit "Error: Missing required parameters"), self)
  end.

(** [AdvancedMemory._handle_delete] *)
Definition _handle_delete : handler := fun now self input_data =>
  match path input_data with
  | Some (c :: p) => delete self (c :: p)
  | _ => (Returned (lit "Error: No path specified"), self)
  end.

(** [AdvancedMemory._handle_rename] *)
Definition _handle_rename : handler := fun now self input_data =>
  match old_path input_data, new_path input_data with
  | Some (c :: p), Some (d :: q) => rename self (c :: p) (d :: q)
  | _, _ => (Returned (lit "Error: Both paths required"), self)
  end.

(** The [handlers] table of [handle_tool_call], in source order. *)
Definition handlers : list (str * handler) :=
  [ (lit "view", _handle_view);
    (lit "create", _handle_create);
    (lit "str_replace", _handle_str_replace);
    (lit "insert", _handle_insert);
    (lit "delete", _handle_delete);
    (lit "rename", _handle_rename) ].

(** [handlers.get(command)]: hashing a list or a dict raises; a value that
    is not a string equals no key of the table. *)
Definition handlers_get (c : pyvalue) : exn + option handler :=
  match c with
  | PyList _ => inl (TypeError (lit "unhashable type: 'list'"))
  | PyDict _ => inl (TypeError (lit "unhashable type: 'dict'"))
  | PyStr s => inr (OD.get s handlers)
  | PyNone | PyBool _ | PyInt _ => inr None
  end.

(** [f"{command}"] for the values [handlers.get] accepts. *)
Definition format_value (c : pyvalue) : str :=
  match c with
  | PyStr s => s
  | PyInt z => str_of_Z z
  | PyBool true => lit "True"
  | PyBool false => lit "False"
  | PyNone => lit "None"
  | PyList _ | PyDict _ => []
  end.

(** [AdvancedMemory.handle_tool_call].  Only the last part stands inside
    [try ... except Exception]. *)
Definition handle_tool_call (now : Z) (self : AdvancedMemory)
    (input : tool_input) : outcome * AdvancedMemory :=
  match command input with
  | None => (Returned (lit "Error: No command specified"), self)
  | Some c =>
      if negb (truthy c) then
        (Returned (lit "Error: No command specified"), self)
      else
        match handlers_get c with
        | inl e => (Raised e, self)
        | inr None =>
            (Returned (lit "Error: Unknown command '" ++ format_value c ++
                       lit "'"),
             self)
        | inr (Some handler) =>
            let self1 := bump (format_value c) self in
            match handler now self1 input with
            | (Returned result, self2) =>
                (Returned result, _reorganize_if_needed now self2)
            | (Raised e, self2) =>
                (Returned (lit "Error: " ++ exn_str e), self2)
            end
        end
  end.

(** A sequence of tool calls, each with the clock reading it is made at. *)
Fixpoint run (self : AdvancedMemory) (calls : list (Z * tool_input))
  : AdvancedMemory :=
  match calls with
  | [] => self
  | (now, input) :: rest => run (snd (handle_tool_call now self input)) rest
  end.

(** Builders for well-formed tool calls. *)
Definition no_input : tool_input :=
  mkInput None None None None None None None None None None.

Definition call_view (p : str) : tool_input :=
  mkInput (Some (PyStr (lit "view"))) (Some p)
          None None None None None None None None.

Definition call_create (p text : str) : tool_input :=
  mkInput (Some (PyStr (lit "create"))) (Some p)
          None (Some text) None None None None None None.



Definition call_delete (p : str) : tool_input :=
  mkInput (Some (PyStr (lit "delete"))) (Some p)
          None None None None None None None None.

Definition call_rename (p q : str) : tool_input :=
  mkInput (Some (PyStr (lit "rename"))) None
          None None None None None None (Some p) (Some q).

(** The key is held by tier [t]. *)
Definition in_tier (self : AdvancedMemory) (t : MemoryTier) (k : str) : bool :=
  OD.mem k (memory_blocks self t).

(** Number of tier mappings that hold the key. *)
Definition tiers_holding (self : AdvancedMemory) (k : str) : nat :=
  List.length (filter (fun t => in_tier self t k) [WORKING; ARCHIVAL; OVERFLOW]).

(* ================================================================== *)
(** * Notions the properties are stated with *)
(* ================================================================== *)

(** The access history recorded for a key; empty for a key never viewed. *)
Definition history (self : AdvancedMemory) (k : str) : list Z :=
  match OD.get k (access_patterns self) with
  | Some ts => ts
  | None => []
  end.

(** Number of recorded accesses of [k] less than 300 seconds before [now]. *)
Definition recent_accesses (now : Z) (self : AdvancedMemory) (k : str) : Z :=
  len (filter (fun t => now - t <? 300) (history self k)).

(** The block a tier holds under a key. *)
Definition block_at (self : AdvancedMemory) (t : MemoryTier) (k : str)
  : option MemoryBlock :=
  OD.get k (memory_blocks self t).

(** A string of [n] copies of the letter x. *)
Definition xs (n : nat) : str := repeat 120%N n.

(** The engine after a 4000-character file was created in the empty store. *)
Definition filled_4000 : AdvancedMemory :=
  run init [(0, call_create (lit "/memories/filler.txt") (xs 4000))].

(** Two creates of one path: 5000 characters, then a single one. *)
Definition created_twice : AdvancedMemory :=
  run init [(0, call_create (lit "/memories/a") (xs 5000));
            (1, call_create (lit "/memories/a") (lit "x"))].

(** A file created at time 0 and rewritten, never viewed, at time 1000. *)
Definition hello_store : AdvancedMemory :=
  snd (create 0 init (lit "/memories/a") (lit "hello")).

Definition hello_rewritten : AdvancedMemory :=
  snd (str_replace 1000 hello_store (lit "/memories/a") (lit "hello")
                   (lit "bye")).

(** A file whose content is the single character e with acute accent. *)
Definition accent_store : AdvancedMemory :=
  snd (create 0 init (lit "/memories/a") [233%N]).

(** Nine listings of the root after a create at time 0, the last one at
    time [t]: the tenth operation runs the reorganizer at time [t]. *)
Definition idle_until (t : Z) : AdvancedMemory :=
  run init ((0, call_create (lit "/memories/a") (lit "ab")) ::
            repeat (1, call_view (lit "/memories")) 8 ++
            [(t, call_view (lit "/memories"))]).

(** The demotion and archival loops have one shape: move the item from
    [f] to [t] when [old] holds of its block. *)
Definition ageing_step (f t : MemoryTier) (old : MemoryBlock -> bool)
    (self : AdvancedMemory) (item : str * MemoryBlock) : AdvancedMemory :=
  if old (snd item) then _move_between_tiers (fst item) f t self else self.


(** A file holding aabb, and the store after ab was replaced by the
    empty string in it. *)
Definition aabb_store : AdvancedMemory :=
  snd (create 0 init (lit "/memories/a") (lit "aabb")).


(** A file of the two lines A and B. *)
Definition two_lines : AdvancedMemory :=
  snd (create 0 init (lit "/memories/f") (lit "A" ++ newline ++ lit "B")).



(** The tool call with the command name [c] and the fields of [input]. *)
Definition with_command (c : str) (input : tool_input) : tool_input :=
  mkInput (Some (PyStr c)) (path input) (view_range input) (file_text input)
          (old_str input) (new_str input) (insert_line input)
          (insert_text input) (old_path input) (new_path input).



(** A call whose command is a list. *)
Definition list_command : tool_input :=
  mkInput (Some (PyList [PyStr (lit "view")])) None
          None None None None None None None None.

(** Tier exclusivity: no key is held by two tier mappings. *)
Definition exclusive (self : AdvancedMemory) : Prop :=
  forall k t t',
    block_at self t k <> None -> block_at self t' k <> None -> t = t'.

(** The path separator and the character that replaces it in a key. *)
Definition slash : char := 47%N.
Definition underscore : char := 95%N.

(** What [_validate_path] does to one character. *)
Definition flatten_char (c : char) : char :=
  if N.eqb c slash then underscore else c.


(** A property of every block a tier holds. *)
Definition all_blocks (P : MemoryBlock -> Prop) (self : AdvancedMemory)
  : Prop :=
  forall t k b, block_at self t k = Some b -> P b.

(** Every recorded size is the length of the content it is recorded for. *)
Definition sizes_consistent (self : AdvancedMemory) : Prop :=
  all_blocks (fun b => size_bytes b = len (content b)) self.


(** Two blocks that differ in the tier field at most. *)
Definition same_data (b b' : MemoryBlock) : Prop :=
  set_tier WORKING b = set_tier WORKING b'.

(** The sum of the lengths of the pieces of a list of strings. *)
Definition total_len (pieces : list str) : Z :=
  fold_right (fun p acc => len p + acc) 0 pieces.

(** A string with no character at which [splitlines] ends a line. *)
Definition one_line (s : str) : Prop :=
  Forall (fun c => is_line_boundary c = false) s.

(** The file of [hello_store] after one view at time 50. *)
Definition hello_viewed : AdvancedMemory :=
  snd (view 50 hello_store (lit "/memories/a") None).


(** The sum of the recorded sizes of a list of bindings. *)
Definition sum_sizes (l : list (str * MemoryBlock)) : Z :=
  fold_right (fun b acc => size_bytes b + acc) 0 (map snd l).

(** An archival block viewed six times, the last time at time 100, beside
    an idle one. *)
Definition hot_and_cold : AdvancedMemory :=
  mkMem []
        [(lit "hot", mkBlock (xs 10) ARCHIVAL 6 100 (1 # 2) 0 10);
         (lit "cold", mkBlock (xs 20) ARCHIVAL 2 100 (1 # 2) 0 20)]
        [] [] [] [] 0.

(** A file of the three lines one, two, three. *)
Definition three_lines : str :=
  lit "one" ++ newline ++ lit "two" ++ newline ++ lit "three".

(** A working tier whose one file holds 2100 characters. *)
Definition one_large_file : AdvancedMemory :=
  snd (create 0 init (lit "/memories/a") (xs 2100)).

(** [hello_store] after four views of its file, at times 1 to 4. *)
Definition hello_hot : AdvancedMemory :=
  run hello_store [(1, call_view (lit "/memories/a"));
                   (2, call_view (lit "/memories/a"));
                   (3, call_view (lit "/memories/a"));
                   (4, call_view (lit "/memories/a"))].

(* ================================================================== *)
(** * Facts about strings and dictionaries *)
(* ================================================================== *)

Module PyFacts.

Lemma str_eqb_refl (a : str) : str_eqb a a = true.
Proof.
  induction a as [|x a IH]; simpl; [reflexivity|].
  now rewrite N.eqb_refl, IH.
Qed.

Lemma str_eqb_eq (a b : str) : str_eqb a b = true <-> a = b.
Proof.
  split.
  - revert b; induction a as [|x a IH]; intros [|y b] H; simpl in H;
      try discriminate; [reflexivity|].
    apply andb_true_iff in H as [Hx Hab].
    apply N.eqb_eq in Hx. apply IH in Hab. now subst.
  - intros ->. apply str_eqb_refl.
Qed.

Lemma str_eqb_neq (a b : str) : str_eqb a b = false <-> a <> b.
Proof.
  split.
  - intros H E. apply str_eqb_eq in E. congruence.
  - intros H. destruct (str_eqb a b) eqn:E; [|reflexivity].
    apply str_eqb_eq in E. contradiction.
Qed.

Lemma str_eqb_sym (a b : str) : str_eqb a b = str_eqb b a.
Proof.
  destruct (str_eqb a b) eqn:E.
  - apply str_eqb_eq in E. subst. symmetry. apply str_eqb_refl.
  - symmetry. apply str_eqb_neq. apply str_eqb_neq in E. congruence.
Qed.

Lemma startswith_app (p r : str) : startswith p (p ++ r) = true.
Proof.
  induction p as [|x p IH]; simpl; [reflexivity|].
  now rewrite N.eqb_refl, IH.
Qed.

Lemma startswith_split (p s : str) :
  startswith p s = true -> s = p ++ skipn (List.length p) s.
Proof.
  revert s; induction p as [|x p IH]; intros s H; simpl in *.
  - reflexivity.
  - destruct s as [|y s]; [discriminate|].
    apply andb_true_iff in H as [Hx Hp]. apply N.eqb_eq in Hx. subst y.
    simpl. f_equal. now apply IH.
Qed.

Lemma len_nonneg {A} (l : list A) : 0 <= len l.
Proof. unfold len. lia. Qed.

Lemma len_app {A} (l l' : list A) : len (l ++ l') = len l + len l'.
Proof. unfold len. rewrite length_app. lia. Qed.

End PyFacts.

Module ODFacts.
Import PyFacts.

Section Facts.
Context {V : Type}.
Implicit Types (d : OD.odict V) (k : str) (v : V).

Lemma get_set_same k v d : OD.get k (OD.set k v d) = Some v.
Proof.
  induction d as [|[k' v'] d IH]; simpl.
  - now rewrite str_eqb_refl.
  - destruct (str_eqb k k') eqn:E; simpl; rewrite E; auto.
Qed.

Lemma get_set_other k k' v d :
  k <> k' -> OD.get k (OD.set k' v d) = OD.get k d.
Proof.
  intros Hne. induction d as [|[k0 v0] d IH]; simpl.
  - apply str_eqb_neq in Hne. now rewrite Hne.
  - destruct (str_eqb k' k0) eqn:E; simpl.
    + apply str_eqb_eq in E. subst k0.
      apply str_eqb_neq in Hne. now rewrite Hne.
    + now rewrite IH.
Qed.

Lemma get_pop_same k d : OD.get k (OD.pop k d) = None.
Proof.
  induction d as [|[k' v'] d IH]; simpl; [reflexivity|].
  destruct (str_eqb k k') eqn:E; simpl; [assumption|].
  now rewrite E.
Qed.

Lemma get_pop_other k k' d :
  k <> k' -> OD.get k (OD.pop k' d) = OD.get k d.
Proof.
  intros Hne. induction d as [|[k0 v0] d IH]; simpl; [reflexivity|].
  destruct (str_eqb k' k0) eqn:E; simpl.
  - apply str_eqb_eq in E. subst k0.
    apply str_eqb_neq in Hne. now rewrite Hne.
  - now rewrite IH.
Qed.

Lemma mem_get k d : OD.mem k d = true <-> exists v, OD.get k d = Some v.
Proof.
  unfold OD.mem. destruct (OD.get k d); split; eauto;
    try discriminate. intros [v H]. discriminate.
Qed.

Lemma mem_false k d : OD.mem k d = false <-> OD.get k d = None.
Proof.
  unfold OD.mem. destruct (OD.get k d); split; congruence.
Qed.

(** [items] lists exactly the bindings [get] sees. *)
Lemma in_filter_items k v k0 (l : list (str * V)) :
  In (k, v) (filter (fun kv => negb (str_eqb (fst kv) k0)) l) <->
  In (k, v) l /\ k <> k0.
Proof.
  rewrite filter_In. simpl. rewrite negb_true_iff, str_eqb_neq. tauto.
Qed.

Lemma in_items_get k v d : In (k, v) (OD.items d) <-> OD.get k d = Some v.
Proof.
  induction d as [|[k0 v0] d IH]; simpl.
  - split; [tauto | discriminate].
  - rewrite in_filter_items, IH.
    destruct (str_eqb k k0) eqn:E.
    + apply str_eqb_eq in E. subst k0. split.
      * intros [H|[_ H]]; [congruence | contradiction].
      * intros H. left. congruence.
    + apply str_eqb_neq in E. split.
      * intros [H|[H _]]; [congruence | assumption].
      * intros H. right. split; assumption.
Qed.

Lemma keys_items_filter k0 (l : list (str * V)) :
  forall k, In k (map fst (filter (fun kv => negb (str_eqb (fst kv) k0)) l))
            -> In k (map fst l) /\ k <> k0.
Proof.
  intros k H. apply in_map_iff in H as [[k1 v1] [E H]]. simpl in E. subst k1.
  apply in_filter_items in H as [H Hne]. split; [|assumption].
  apply in_map_iff. now exists (k, v1).
Qed.

Lemma NoDup_filter_keys k0 (l : list (str * V)) :
  NoDup (map fst l) ->
  NoDup (map fst (filter (fun kv => negb (str_eqb (fst kv) k0)) l)).
Proof.
  induction l as [|[k1 v1] l IH]; simpl; intros H; [constructor|].
  inversion H as [|? ? Hnin Hnd]; subst.
  destruct (negb (str_eqb k1 k0)); simpl; [|now apply IH].
  constructor; [|now apply IH].
  intros Hin. apply keys_items_filter in Hin as [Hin _]. contradiction.
Qed.

Lemma NoDup_keys d : NoDup (map fst (OD.items d)).
Proof.
  induction d as [|[k0 v0] d IH]; simpl; constructor.
  - intros Hin. apply keys_items_filter in Hin as [_ Hne]. congruence.
  - now apply NoDup_filter_keys.
Qed.

Lemma in_keys_get k d :
  In k (map fst (OD.items d)) <-> exists v, OD.get k d = Some v.
Proof.
  split.
  - intros H. apply in_map_iff in H as [[k1 v1] [E H]]. simpl in E. subst k1.
    exists v1. now apply in_items_get.
  - intros [v H]. apply in_map_iff. exists (k, v). split; [reflexivity|].
    now apply in_items_get.
Qed.

End Facts.

End ODFacts.


(* ================================================================== *)
(** * Facts about the state *)
(* ================================================================== *)

Module StateFacts.
Import PyFacts ODFacts.

Lemma tier_eqb_eq (a b : MemoryTier) : tier_eqb a b = true <-> a = b.
Proof. destruct a, b; simpl; split; congruence. Qed.

Lemma tier_eqb_neq (a b : MemoryTier) : tier_eqb a b = false <-> a <> b.
Proof. destruct a, b; simpl; split; congruence. Qed.

Lemma blocks_set_same t d self : memory_blocks (set_blocks t d self) t = d.
Proof. now destruct t. Qed.

Lemma blocks_set_other t t' d self :
  t <> t' -> memory_blocks (set_blocks t d self) t' = memory_blocks self t'.
Proof. destruct t, t'; simpl; congruence. Qed.

Lemma patterns_set_blocks t d self :
  access_patterns (set_blocks t d self) = access_patterns self.
Proof. now destruct t. Qed.

Lemma predicted_set_blocks t d self :
  predicted_next (set_blocks t d self) = predicted_next self.
Proof. now destruct t. Qed.

Lemma determine_tier_bump now k self path content :
  _determine_tier now (bump k self) path content =
  _determine_tier now self path content.
Proof. reflexivity. Qed.

(** The lookup finds a block exactly when some tier holds the key. *)
Lemma find_some self k t b :
  _find_in_tiers self k = Some (t, b) -> block_at self t k = Some b.
Proof.
  unfold _find_in_tiers, block_at. simpl.
  destruct (OD.get k (working_blocks self)) eqn:Hw;
  destruct (OD.get k (archival_blocks self)) eqn:Ha;
  destruct (OD.get k (overflow_blocks self)) eqn:Ho;
  destruct (existsb (str_eqb k) (predicted_next self));
  intros H; inversion H; subst; simpl; assumption.
Qed.

Lemma find_none self k :
  _find_in_tiers self k = None <->
  forall t, block_at self t k = None.
Proof.
  unfold _find_in_tiers, block_at. simpl. split.
  - destruct (OD.get k (working_blocks self)) eqn:Hw;
    destruct (OD.get k (archival_blocks self)) eqn:Ha;
    destruct (OD.get k (overflow_blocks self)) eqn:Ho;
    destruct (existsb (str_eqb k) (predicted_next self));
    intros H; try discriminate; intros []; simpl; assumption.
  - intros H.
    pose proof (H WORKING) as Hw. pose proof (H ARCHIVAL) as Ha.
    pose proof (H OVERFLOW) as Ho. simpl in *.
    rewrite Hw, Ha, Ho. now destruct (existsb _ _).
Qed.

(** With the key in overflow only, the lookup answers overflow. *)
Lemma find_overflow_only self k b :
  block_at self WORKING k = None ->
  block_at self ARCHIVAL k = None ->
  block_at self OVERFLOW k = Some b ->
  _find_in_tiers self k = Some (OVERFLOW, b).
Proof.
  unfold _find_in_tiers, block_at. simpl. intros -> -> ->.
  now destruct (existsb _ _).
Qed.

End StateFacts.

(* ================================================================== *)
(** * Placement policy *)
(* ================================================================== *)

Import PyFacts ODFacts StateFacts.

Lemma determine_tier_unfold now self key content :
  _determine_tier now self key content =
  if 3 <? recent_accesses now self key then WORKING
  else tier_by_size self (len content).
Proof.
  unfold _determine_tier, recent_accesses, history, recent.
  destruct (OD.get key (access_patterns self)); reflexivity.
Qed.

(** C1. The placement policy: more than 3 accesses recorded in the last 300
    seconds give working; otherwise content of at most 4096 characters that
    fits beside the blocks already in working gives working; otherwise
    content of at most 102400 characters gives archival; otherwise
    overflow.  In particular 500 characters beside 4000 bytes already in
    working go to archival. *)
Theorem determine_tier_policy (now : Z) (self : AdvancedMemory)
    (key content : str) :
  let n := recent_accesses now self key in
  let size := len content in
  let fits := size <= 4096 /\ working_size self + size <= 4096 in
  (3 < n -> _determine_tier now self key content = WORKING) /\
  (n <= 3 -> fits -> _determine_tier now self key content = WORKING) /\
  (n <= 3 -> ~ fits -> size <= 102400 ->
   _determine_tier now self key content = ARCHIVAL) /\
  (n <= 3 -> ~ fits -> 102400 < size ->
   _determine_tier now self key content = OVERFLOW) /\
  (n <= 3 -> working_size self = 4000 -> size = 500 ->
   _determine_tier now self key content = ARCHIVAL).
Proof.
  intros n size fits. subst n size fits.
  rewrite determine_tier_unfold. unfold tier_by_size, within_limit. simpl.
  repeat split; intros;
    repeat match goal with
    | |- context [?a <? ?b] => destruct (Z.ltb_spec a b); try lia
    | |- context [?a <=? ?b] => destruct (Z.leb_spec a b); try lia
    end; simpl; try reflexivity; try lia; tauto.
Qed.

Lemma determine_tier_policy_witness :
  (recent_accesses 5 filled_4000 (lit "new.txt") <= 3 /\
   working_size filled_4000 = 4000 /\ len (xs 500) = 500) /\
  _determine_tier 5 filled_4000 (lit "new.txt") (xs 500) = ARCHIVAL.
Proof.
  assert (H1 : recent_accesses 5 filled_4000 (lit "new.txt") <= 3)
    by (vm_compute; discriminate).
  assert (H2 : working_size filled_4000 = 4000) by (vm_compute; reflexivity).
  assert (H3 : len (xs 500) = 500) by (vm_compute; reflexivity).
  split; [auto|].
  exact (proj2 (proj2 (proj2 (proj2
           (determine_tier_policy 5 filled_4000 (lit "new.txt") (xs 500)))))
           H1 H2 H3).
Defined.

(** The scenario through the dispatcher: the second create answers with the
    archival tier. *)
Example working_overflow_refusal :
  fst (handle_tool_call 5 filled_4000
         (call_create (lit "/memories/new.txt") (xs 500))) =
  Returned (lit "Created file: /memories/new.txt (tier: archival)").
Proof. vm_compute. reflexivity. Qed.


(* ================================================================== *)
(** * Create *)
(* ================================================================== *)



(** C8. The size recorded by [create] is the number of characters: for the
    one-character content U+00E9 it is 1, while the UTF-8 encoding written
    to disk has 2 bytes. *)
Theorem size_bytes_counts_characters :
  option_map size_bytes (block_at accent_store WORKING (lit "a")) = Some 1 /\
  option_map (fun b => utf8_len (content b))
             (block_at accent_store WORKING (lit "a")) = Some 2.
Proof. vm_compute. split; reflexivity. Qed.

(** C2. After a create that the policy places in another tier than the one
    holding the key, two tier mappings hold the key. *)
Theorem create_keeps_stale_copy :
  in_tier created_twice WORKING (lit "a") = true /\
  in_tier created_twice ARCHIVAL (lit "a") = true /\
  tiers_holding created_twice (lit "a") = 2%nat.
Proof. vm_compute. repeat split; reflexivity. Qed.

(** The stale copy is what a view finds once the newer one is deleted. *)
Example stale_copy_survives_delete :
  fst (handle_tool_call 3
         (run created_twice [(2, call_delete (lit "/memories/a"))])
         (call_view (lit "/memories/a"))) = Returned (xs 5000).
Proof. vm_compute. reflexivity. Qed.

(* ================================================================== *)
(** * Access metadata *)
(* ================================================================== *)

(** Where [str_replace] and [insert] leave the block they changed, and
    what it holds. *)
Lemma store_mutated_block now self k tier b c :
  exists t' b',
    block_at (store_mutated now self k tier b c) t' k = Some b' /\
    content b' = c /\ size_bytes b' = len c /\ last_access b' = now /\
    access_count b' = access_count b + 1 /\ created_at b' = created_at b.
Proof.
  unfold store_mutated, block_at.
  set (b1 := update_access now (set_size_bytes (len c) (set_content c b))).
  set (self1 := set_blocks tier (OD.set k b1 (memory_blocks self tier)) self).
  set (new_tier := _determine_tier now self1 k (content b1)).
  assert (Hget : OD.get k (memory_blocks self1 tier) = Some b1).
  { unfold self1. rewrite blocks_set_same. apply get_set_same. }
  destruct (tier_eqb new_tier tier) eqn:E; simpl.
  - exists tier, b1. repeat split; assumption.
  - exists new_tier, (set_tier new_tier b1).
    unfold _move_between_tiers. rewrite Hget.
    rewrite blocks_set_same, get_set_same. repeat split.
Qed.

Lemma view_block now self path view_range t b :
  str_eqb path (lit "/memories") || str_eqb path [] = false ->
  _find_in_tiers self (_validate_path path) = Some (t, b) ->
  block_at (snd (view now self path view_range)) t (_validate_path path) =
  Some (update_access now b).
Proof.
  intros Hroot Hfind. unfold view. rewrite Hroot, Hfind. simpl snd.
  unfold block_at, bump, _predict_next_access, record_access.
  destruct t; simpl; apply get_set_same.
Qed.

(** C3, as the code has it.  Every command that touches a block sets its
    [last_access] to the time of the call: [create] in the block it
    builds, [str_replace] and [insert] through [update_access] (which also
    adds 1 to [access_count]), and a successful [view] likewise. *)
Theorem writes_refresh_last_access (now : Z) (self : AdvancedMemory)
    (path : str) :
  let key := _validate_path path in
  (forall text, exists t b,
      block_at (snd (create now self path text)) t key = Some b /\
      last_access b = now) /\
  (forall old new t b,
      _find_in_tiers self key = Some (t, b) ->
      contains old (content b) = true ->
      exists t' b',
        block_at (snd (str_replace now self path old new)) t' key = Some b' /\
        last_access b' = now /\ access_count b' = access_count b + 1) /\
  (forall line text t b,
      _find_in_tiers self key = Some (t, b) ->
      0 <= line ->
      exists t' b',
        block_at (snd (insert now self path line text)) t' key = Some b' /\
        last_access b' = now /\ access_count b' = access_count b + 1) /\
  (forall view_range t b,
      str_eqb path (lit "/memories") || str_eqb path [] = false ->
      _find_in_tiers self key = Some (t, b) ->
      block_at (snd (view now self path view_range)) t key =
      Some (update_access now b)).
Proof.
  intros key. subst key. repeat split.
  - intros text. eexists. eexists. split.
    + unfold create, block_at. simpl snd. rewrite blocks_set_same.
      apply get_set_same.
    + reflexivity.
  - intros old new t b Hfind Hin. unfold str_replace.
    rewrite Hfind, Hin. simpl snd.
    destruct (store_mutated_block now self (_validate_path path) t b
                (replace old new (content b)))
      as (t' & b' & Hb & _ & _ & Hl & Ha & _).
    exists t', b'. auto.
  - intros line text t b Hfind Hline. unfold insert. rewrite Hfind.
    destruct (Z.ltb_spec line 0); [lia|]. simpl snd.
    destruct (store_mutated_block now self (_validate_path path) t b
                (join newline
                   (inserted_lines (splitlines (content b)) line text)))
      as (t' & b' & Hb & _ & _ & Hl & Ha & _).
    exists t', b'. auto.
  - intros view_range t b Hroot Hfind. now apply view_block.
Qed.

Lemma writes_refresh_last_access_witness :
  (_find_in_tiers hello_store (_validate_path (lit "/memories/a")) =
     Some (WORKING, mkBlock (lit "hello") WORKING 0 0 (1 # 2) 0 5) /\
   contains (lit "hello") (lit "hello") = true) /\
  exists t' b',
    block_at (snd (str_replace 1000 hello_store (lit "/memories/a")
                               (lit "hello") (lit "bye")))
             t' (_validate_path (lit "/memories/a")) = Some b' /\
    last_access b' = 1000 /\ access_count b' = 0 + 1.
Proof.
  assert (H1 : _find_in_tiers hello_store (_validate_path (lit "/memories/a"))
               = Some (WORKING, mkBlock (lit "hello") WORKING 0 0 (1 # 2) 0 5))
    by (vm_compute; reflexivity).
  assert (H2 : contains (lit "hello") (lit "hello") = true)
    by (vm_compute; reflexivity).
  split; [auto|].
  exact (proj1 (proj2 (writes_refresh_last_access 1000 hello_store
                         (lit "/memories/a")))
           (lit "hello") (lit "bye") WORKING _ H1 H2).
Defined.

(** C3 as stated fails: a [str_replace] at time 1000 moves [last_access]
    of a block created at time 0 and never viewed from 0 to 1000, and the
    reorganizer at time 1500 leaves that block in working. *)
Lemma writes_keep_last_access_counterexample :
  option_map last_access (block_at hello_store WORKING (lit "a")) = Some 0 /\
  option_map last_access (block_at hello_rewritten WORKING (lit "a")) =
    Some 1000 /\
  history hello_rewritten (lit "a") = [] /\
  in_tier (_reorganize_memories 1500 hello_rewritten) WORKING (lit "a") = true.
Proof. vm_compute. repeat split; reflexivity. Qed.


(* ================================================================== *)
(** * Moves and reorganizer passes *)
(* ================================================================== *)

Module MoveFacts.
Import PyFacts ODFacts StateFacts.

Lemma move_absent path f t self :
  block_at self f path = None -> _move_between_tiers path f t self = self.
Proof. unfold block_at, _move_between_tiers. now intros ->. Qed.

(** A move changes nothing under another key. *)
Lemma move_other_key path f t self t' k :
  k <> path ->
  block_at (_move_between_tiers path f t self) t' k = block_at self t' k.
Proof.
  intros Hne. unfold block_at, _move_between_tiers.
  destruct (OD.get path (memory_blocks self f)) as [b|]; [|reflexivity].
  destruct f, t, t'; simpl;
    rewrite ?get_set_other, ?get_pop_other by assumption; reflexivity.
Qed.

(** A move leaves the third tier as it is. *)
Lemma move_other_tier path f t self t' :
  t' <> f -> t' <> t ->
  memory_blocks (_move_between_tiers path f t self) t' = memory_blocks self t'.
Proof.
  intros Hf Ht. unfold _move_between_tiers.
  destruct (OD.get path (memory_blocks self f)); [|reflexivity].
  destruct f, t, t'; simpl; congruence.
Qed.

(** Pop, then insert: the source tier loses the key, the target holds the
    block with its tier field set. *)
Lemma move_moves path f t self b :
  f <> t ->
  block_at self f path = Some b ->
  block_at (_move_between_tiers path f t self) f path = None /\
  block_at (_move_between_tiers path f t self) t path = Some (set_tier t b).
Proof.
  intros Hne Hb. unfold block_at in *. unfold _move_between_tiers. rewrite Hb.
  destruct f, t; try congruence; simpl;
    split; (apply get_pop_same || apply get_set_same).
Qed.

Section Passes.
Variable step : AdvancedMemory -> str * MemoryBlock -> AdvancedMemory.

Section KeyFrame.
Hypothesis step_other_key : forall self path b t k,
  k <> path -> block_at (step self (path, b)) t k = block_at self t k.

Lemma fold_other_key items self t k :
  ~ In k (map fst items) ->
  block_at (fold_left step items self) t k = block_at self t k.
Proof.
  revert self. induction items as [|[path b] items IH]; intros self Hnin;
    simpl; [reflexivity|].
  simpl in Hnin. rewrite IH by tauto.
  apply step_other_key. intros E. apply Hnin. left. now subst.
Qed.
End KeyFrame.

Section TierFrame.
Variable untouched : MemoryTier.
Hypothesis step_other_tier : forall self item,
  memory_blocks (step self item) untouched = memory_blocks self untouched.

Lemma fold_other_tier items self :
  memory_blocks (fold_left step items self) untouched =
  memory_blocks self untouched.
Proof.
  revert self. induction items as [|item items IH]; intros self; simpl;
    [reflexivity|].
  now rewrite IH, step_other_tier.
Qed.
End TierFrame.
End Passes.

Lemma promote_step_other_key now self path b t k :
  k <> path ->
  block_at (promote_step now self (path, b)) t k = block_at self t k.
Proof.
  intros Hne. unfold promote_step.
  destruct (_ && _); [|reflexivity].
  destruct (within_limit _ _); [|reflexivity].
  now apply move_other_key.
Qed.



Lemma archive_step_working now self item :
  memory_blocks (archive_step now self item) WORKING =
  memory_blocks self WORKING.
Proof.
  destruct item as [path b]. unfold archive_step.
  destruct (_ <? _); [|reflexivity]. apply move_other_tier; discriminate.
Qed.

Lemma not_in_keys k (d : OD.odict MemoryBlock) :
  OD.get k d = None -> ~ In k (map fst (OD.items d)).
Proof.
  intros H Hin. apply in_keys_get in Hin as [v Hv]. congruence.
Qed.

(** A key no pass iterates over is left alone by the pass. *)
Lemma promote_pass_other_key now self t k :
  block_at self ARCHIVAL k = None ->
  block_at (promote_pass now self) t k = block_at self t k.
Proof.
  intros H. apply fold_other_key.
  - intros. now apply promote_step_other_key.
  - now apply not_in_keys.
Qed.



Lemma archive_pass_working now self :
  memory_blocks (archive_pass now self) WORKING = memory_blocks self WORKING.
Proof.
  apply fold_other_tier. intros. apply archive_step_working.
Qed.

Section AgeingLoop.
Variables (f t : MemoryTier) (old : MemoryBlock -> bool).
Hypothesis f_neq_t : f <> t.

Lemma ageing_step_other_key self path b t' k :
  k <> path ->
  block_at (ageing_step f t old self (path, b)) t' k = block_at self t' k.
Proof.
  intros Hne. unfold ageing_step. simpl.
  destruct (old b); [|reflexivity]. now apply move_other_key.
Qed.

(** Run over items that are tier [f]'s own, the loop moves exactly the old
    ones. *)
Lemma ageing_fold items : forall self,
  NoDup (map fst items) ->
  (forall k b, In (k, b) items -> block_at self f k = Some b) ->
  forall k b, In (k, b) items ->
    (old b = true ->
     block_at (fold_left (ageing_step f t old) items self) f k = None /\
     block_at (fold_left (ageing_step f t old) items self) t k =
       Some (set_tier t b)) /\
    (old b = false ->
     block_at (fold_left (ageing_step f t old) items self) f k = Some b).
Proof.
  induction items as [|[k0 b0] items IH]; intros self Hnd Hown k b Hin;
    [contradiction|].
  simpl in Hnd. inversion Hnd as [|? ? Hnin Hnd']; subst.
  assert (Hrest : forall k' b', In (k', b') items ->
            block_at (ageing_step f t old self (k0, b0)) f k' = Some b').
  { intros k' b' Hin'. rewrite ageing_step_other_key.
    - apply Hown. now right.
    - intros ->. apply Hnin. apply in_map_iff. now exists (k0, b'). }
  simpl fold_left. destruct Hin as [E|Hin].
  - inversion E; subst k0 b0. clear E.
    rewrite !(fold_other_key _ ageing_step_other_key) by assumption.
    assert (Hk : block_at self f k = Some b) by (apply Hown; now left).
    unfold ageing_step. simpl. split; intros Hage; rewrite Hage.
    + now apply move_moves.
    + assumption.
  - now apply IH.
Qed.

(** The same for the pass as the code starts it, over [items()] of [f]. *)
Lemma ageing_pass self k b :
  block_at self f k = Some b ->
  (old b = true ->
   block_at (fold_left (ageing_step f t old)
                       (OD.items (memory_blocks self f)) self)
            f k = None /\
   block_at (fold_left (ageing_step f t old)
                       (OD.items (memory_blocks self f)) self)
            t k = Some (set_tier t b)) /\
  (old b = false ->
   block_at (fold_left (ageing_step f t old)
                       (OD.items (memory_blocks self f)) self)
            f k = Some b).
Proof.
  intros Hb. apply ageing_fold.
  - apply NoDup_keys.
  - intros k' b' Hin. now apply in_items_get.
  - now apply in_items_get.
Qed.
End AgeingLoop.

Lemma fold_left_same {A B} (g h : A -> B -> A) (l : list B) (a : A) :
  (forall a b, g a b = h a b) -> fold_left g l a = fold_left h l a.
Proof.
  intros E. revert a. induction l as [|b l IH]; intros a; simpl;
    [reflexivity|].
  now rewrite E, IH.
Qed.

Lemma demote_pass_ageing now self :
  demote_pass now self =
  fold_left (ageing_step WORKING ARCHIVAL
               (fun b => 600 <? now - last_access b))
            (OD.items (memory_blocks self WORKING)) self.
Proof.
  unfold demote_pass. simpl. apply fold_left_same.
  intros s' [path b]. reflexivity.
Qed.

Lemma archive_pass_ageing now self :
  archive_pass now self =
  fold_left (ageing_step ARCHIVAL OVERFLOW
               (fun b => 3600 <? now - last_access b))
            (OD.items (memory_blocks self ARCHIVAL)) self.
Proof.
  unfold archive_pass. simpl. apply fold_left_same.
  intros s' [path b]. reflexivity.
Qed.

End MoveFacts.

(* ================================================================== *)
(** * Reorganizer *)
(* ================================================================== *)

Import MoveFacts.



(** From the state the reorganizer starts in: the promotion pass leaves a
    working block alone unless archival holds a block under the same key. *)
Lemma demotion_from_start now self k b :
  block_at self WORKING k = Some b ->
  block_at self ARCHIVAL k = None ->
  (600 < now - last_access b ->
     block_at (_reorganize_memories now self) WORKING k = None) /\
  (now - last_access b <= 600 ->
     block_at (_reorganize_memories now self) WORKING k = Some b).
Proof.
  intros Hw Ha. unfold _reorganize_memories, block_at.
  rewrite archive_pass_working. fold (block_at (demote_pass now
    (promote_pass now self)) WORKING k).
  assert (H : block_at (promote_pass now self) WORKING k = Some b)
    by (rewrite promote_pass_other_key; assumption).
  rewrite demote_pass_ageing.
  destruct (ageing_pass WORKING ARCHIVAL
              (fun b => 600 <? now - last_access b) ltac:(discriminate)
              _ k b H) as [Hold Hyoung].
  split; intros Hage.
  - apply Hold. apply Z.ltb_lt. lia.
  - apply Hyoung. apply Z.ltb_ge. lia.
Qed.

(** The thresholds through the dispatcher: the tenth operation runs the
    reorganizer. *)
Example untouched_601_demoted :
  in_tier (idle_until 601) WORKING (lit "a") = false /\
  in_tier (idle_until 601) ARCHIVAL (lit "a") = true.
Proof. vm_compute. split; reflexivity. Qed.

Example untouched_599_kept :
  in_tier (idle_until 599) WORKING (lit "a") = true /\
  in_tier (idle_until 599) ARCHIVAL (lit "a") = false.
Proof. vm_compute. split; reflexivity. Qed.

Example untouched_600_kept :
  in_tier (idle_until 600) WORKING (lit "a") = true.
Proof. vm_compute. reflexivity. Qed.

Example untouched_3601_archived :
  in_tier (idle_until 3601) ARCHIVAL (lit "a") = false /\
  in_tier (idle_until 3601) OVERFLOW (lit "a") = true.
Proof. vm_compute. split; reflexivity. Qed.


(* ================================================================== *)
(** * The overflow tier *)
(* ================================================================== *)



(** Writing under a key a tier holds adds no key to any tier. *)
Lemma set_found_keeps_none self t k0 v b0 t' k :
  block_at self t k0 = Some b0 ->
  block_at self t' k = None ->
  block_at (set_blocks t (OD.set k0 v (memory_blocks self t)) self) t' k = None.
Proof.
  unfold block_at. intros Hfound Hnone.
  destruct (tier_eqb t t') eqn:Et.
  - apply tier_eqb_eq in Et. subst t'. rewrite blocks_set_same.
    destruct (str_eqb k k0) eqn:Ek.
    + apply str_eqb_eq in Ek. subst. congruence.
    + apply str_eqb_neq in Ek. now rewrite get_set_other.
  - apply tier_eqb_neq in Et. now rewrite blocks_set_other.
Qed.

Lemma pop_keeps_none self t k0 t' k :
  block_at self t' k = None ->
  block_at (set_blocks t (OD.pop k0 (memory_blocks self t)) self) t' k = None.
Proof.
  unfold block_at. intros Hnone.
  destruct (tier_eqb t t') eqn:Et.
  - apply tier_eqb_eq in Et. subst t'. rewrite blocks_set_same.
    destruct (str_eqb k k0) eqn:Ek.
    + apply str_eqb_eq in Ek. subst. apply get_pop_same.
    + apply str_eqb_neq in Ek. now rewrite get_pop_other.
  - apply tier_eqb_neq in Et. now rewrite blocks_set_other.
Qed.

Lemma view_keeps_none now self path view_range t' k :
  block_at self t' k = None ->
  block_at (snd (view now self path view_range)) t' k = None.
Proof.
  intros Hnone. unfold view.
  destruct (_ || _); [assumption|].
  destruct (_find_in_tiers self (_validate_path path)) as [[t b]|] eqn:Hfind;
    [|assumption].
  apply find_some in Hfind. simpl snd.
  transitivity
    (block_at (set_blocks t
                 (OD.set (_validate_path path) (update_access now b)
                         (memory_blocks self t)) self) t' k).
  - unfold block_at. now destruct t, t'.
  - eapply set_found_keeps_none; eassumption.
Qed.

Lemma delete_keeps_none self path t' k :
  block_at self t' k = None ->
  block_at (snd (delete self path)) t' k = None.
Proof.
  intros Hnone. unfold delete.
  destruct (_find_in_tiers self (_validate_path path)) as [[t b]|];
    [|assumption].
  simpl snd.
  transitivity
    (block_at (set_blocks t
                 (OD.pop (_validate_path path) (memory_blocks self t)) self)
              t' k).
  - unfold block_at. now destruct t, t'.
  - now apply pop_keeps_none.
Qed.





(* ================================================================== *)
(** * Counting and replacing occurrences *)
(* ================================================================== *)

Module ReplaceFacts.
Import PyFacts.

Lemma count_from_skip old n : forall s,
  count_from old n s = count_from old 0 (skipn n s).
Proof.
  induction n as [|n IH]; intros s; [reflexivity|].
  destruct s as [|c s]; [reflexivity|]. simpl. apply IH.
Qed.

Lemma replace_from_skip old new n : forall s,
  replace_from old new n s = replace_from old new 0 (skipn n s).
Proof.
  induction n as [|n IH]; intros s; [reflexivity|].
  destruct s as [|c s]; [reflexivity|]. simpl. apply IH.
Qed.

Lemma split_from_skip old n : forall s,
  split_from old n s = split_from old 0 (skipn n s).
Proof.
  induction n as [|n IH]; intros s; [reflexivity|].
  destruct s as [|c s]; [reflexivity|]. simpl. apply IH.
Qed.

(** One step of the scan, for a non-empty [old]: at a match the scan
    resumes behind it. *)
Section Step.
Variables (o : char) (os : str).
Let old := o :: os.

Lemma skip_match (c : char) (s : str) :
  skipn (List.length old - 1) s = skipn (List.length old) (c :: s).
Proof. unfold old. simpl. now rewrite Nat.sub_0_r. Qed.

Lemma count_step (c : char) (s : str) :
  count_from old 0 (c :: s) =
  if startswith old (c :: s)
  then 1 + count_from old 0 (skipn (List.length old) (c :: s))
  else count_from old 0 s.
Proof.
  rewrite <- skip_match, <- count_from_skip. reflexivity.
Qed.

Lemma replace_step (new : str) (c : char) (s : str) :
  replace_from old new 0 (c :: s) =
  if startswith old (c :: s)
  then new ++ replace_from old new 0 (skipn (List.length old) (c :: s))
  else c :: replace_from old new 0 s.
Proof.
  rewrite <- skip_match, <- replace_from_skip. reflexivity.
Qed.

Lemma split_step (c : char) (s : str) :
  split_from old 0 (c :: s) =
  if startswith old (c :: s)
  then [] :: split_from old 0 (skipn (List.length old) (c :: s))
  else cons_head c (split_from old 0 s).
Proof.
  rewrite <- skip_match, <- split_from_skip. reflexivity.
Qed.
End Step.

Lemma count_from_nonneg old : forall s n, 0 <= count_from old n s.
Proof.
  induction s as [|c s IH]; intros n; cbn [count_from]; [lia|].
  destruct n; [|apply IH].
  destruct (startswith old (c :: s)); [|apply IH].
  specialize (IH (List.length old - 1)%nat). lia.
Qed.

Lemma count_nonneg old s : 0 <= count old s.
Proof.
  unfold count. destruct old; [|apply count_from_nonneg].
  pose proof (len_nonneg s). lia.
Qed.

Lemma startswith_app_r p : forall s r,
  startswith p s = true -> startswith p (s ++ r) = true.
Proof.
  induction p as [|x p IH]; intros s r H; [reflexivity|].
  destruct s as [|y s]; [discriminate|]. simpl in *.
  apply andb_true_iff in H as [Hx Hp]. rewrite Hx. simpl. now apply IH.
Qed.

Lemma join_cons sep p ps :
  ps <> [] -> join sep (p :: ps) = p ++ sep ++ join sep ps.
Proof. destruct ps; [congruence | reflexivity]. Qed.

Lemma join_head sep p ps : exists tail, join sep (p :: ps) = p ++ tail.
Proof.
  destruct ps as [|q ps].
  - exists []. simpl. now rewrite app_nil_r.
  - exists (sep ++ join sep (q :: ps)). reflexivity.
Qed.

Lemma join_cons_head sep c ps :
  ps <> [] -> join sep (cons_head c ps) = c :: join sep ps.
Proof.
  destruct ps as [|p [|q ps]]; [congruence | reflexivity | reflexivity].
Qed.

Lemma cons_head_length c ps :
  ps <> [] -> len (cons_head c ps) = len ps.
Proof. destruct ps; [congruence | reflexivity]. Qed.

(** The matches cut the string into pieces free of [old]: there is one
    piece more than there are matches, [old] between the pieces gives the
    string back and [new] between them gives the replaced string. *)
Lemma split_spec old new :
  old <> [] ->
  forall n s, (List.length s <= n)%nat ->
    split_from old 0 s <> [] /\
    len (split_from old 0 s) = count_from old 0 s + 1 /\
    join old (split_from old 0 s) = s /\
    join new (split_from old 0 s) = replace_from old new 0 s /\
    Forall (fun p => contains old p = false) (split_from old 0 s).
Proof.
  intros Hold. destruct old as [|o os]; [congruence|]. clear Hold.
  induction n as [|n IH]; intros s Hlen.
  - destruct s; [|simpl in Hlen; lia].
    simpl. repeat split; try discriminate. constructor; [reflexivity|constructor].
  - destruct s as [|c s].
    + simpl. repeat split; try discriminate.
      constructor; [reflexivity|constructor].
    + rewrite split_step, count_step, replace_step.
      destruct (startswith (o :: os) (c :: s)) eqn:E.
      * apply startswith_split in E.
        set (rest := skipn (List.length (o :: os)) (c :: s)) in *.
        assert (Hrest : (List.length rest <= n)%nat).
        { unfold rest. rewrite length_skipn. simpl in *. lia. }
        destruct (IH rest Hrest) as (Hne & Hc & Hj & Hr & Hf).
        split; [discriminate|]. split.
        { change (len ([] :: split_from (o :: os) 0 rest))
            with (Z.of_nat (S (List.length (split_from (o :: os) 0 rest)))).
          unfold len in Hc. lia. }
        split.
        { rewrite join_cons by assumption. rewrite Hj. simpl app at 1.
          symmetry. exact E. }
        split.
        { rewrite join_cons by assumption. now rewrite Hr. }
        constructor; [reflexivity | assumption].
      * assert (Hs : (List.length s <= n)%nat) by (simpl in Hlen; lia).
        destruct (IH s Hs) as (Hne & Hc & Hj & Hr & Hf).
        split.
        { destruct (split_from (o :: os) 0 s); [congruence | discriminate]. }
        split; [now rewrite cons_head_length|].
        split; [now rewrite join_cons_head, Hj|].
        split; [now rewrite join_cons_head, Hr|].
        destruct (split_from (o :: os) 0 s) as [|p ps] eqn:Eps;
          [congruence|].
        apply Forall_cons_iff in Hf as [Hp Hps]. simpl cons_head.
        constructor; [|assumption].
        change (contains (o :: os) (c :: p))
          with (startswith (o :: os) (c :: p) || contains (o :: os) p).
        rewrite Hp, orb_false_r.
        destruct (startswith (o :: os) (c :: p)) eqn:Ep; [|reflexivity].
        destruct (join_head (o :: os) p ps) as [tail Ht].
        rewrite Ht in Hj. subst s.
        apply (startswith_app_r _ _ tail) in Ep.
        change ((c :: p) ++ tail) with (c :: p ++ tail) in Ep. congruence.
Qed.



(** The decomposition, for [count] and [replace] themselves. *)
Lemma replace_pieces old new s :
  old <> [] ->
  len (split old s) = count old s + 1 /\
  Forall (fun p => contains old p = false) (split old s) /\
  s = join old (split old s) /\
  replace old new s = join new (split old s).
Proof.
  intros Hold.
  destruct (split_spec old new Hold (List.length s) s (le_n _))
    as (_ & Hc & Hj & Hr & Hf).
  unfold split, count, replace. destruct old as [|o os]; [congruence|].
  auto.
Qed.

End ReplaceFacts.


(* ================================================================== *)
(** * str_replace *)
(* ================================================================== *)

Import ReplaceFacts.




(* ================================================================== *)
(** * insert *)
(* ================================================================== *)






(** The two insertions on the stored file, read back as lines. *)
Example insert_line_0_of_two :
  option_map (fun b => splitlines (content b))
    (block_at (snd (insert 9 two_lines (lit "/memories/f") 0 (lit "X")))
              WORKING (lit "f")) =
  Some [lit "X"; lit "A"; lit "B"].
Proof. vm_compute. reflexivity. Qed.

Example insert_line_5_of_two :
  option_map (fun b => splitlines (content b))
    (block_at (snd (insert 9 two_lines (lit "/memories/f") 5 (lit "X")))
              WORKING (lit "f")) =
  Some [lit "A"; lit "B"; []; []; []; lit "X"].
Proof. vm_compute. reflexivity. Qed.


(* ================================================================== *)
(** * Dispatcher *)
(* ================================================================== *)


Lemma handlers_get_known cmd h :
  OD.get cmd handlers = Some h -> cmd <> [].
Proof. intros H ->. discriminate. Qed.

(** What the dispatcher does with a command name the table knows. *)
Lemma dispatch_known now self input cmd h :
  command input = Some (PyStr cmd) ->
  OD.get cmd handlers = Some h ->
  handle_tool_call now self input =
  match h now (bump cmd self) input with
  | (Returned result, self2) =>
      (Returned result, _reorganize_if_needed now self2)
  | (Raised e, self2) => (Returned (lit "Error: " ++ exn_str e), self2)
  end.
Proof.
  intros Hc Hh. pose proof (handlers_get_known _ _ Hh) as Hne.
  unfold handle_tool_call. rewrite Hc.
  destruct cmd as [|ch cmd]; [congruence|].
  cbn [truthy negb handlers_get format_value]. now rewrite Hh.
Qed.




(** The table lookup stands before the [try]: a command that cannot be
    hashed raises out of [handle_tool_call]. *)
Example unhashable_command_raises :
  fst (handle_tool_call 0 init list_command) =
  Raised (TypeError (lit "unhashable type: 'list'")).
Proof. reflexivity. Qed.

(** The empty command name is answered as no command at all. *)
Example empty_command_name :
  fst (handle_tool_call 0 init (with_command [] no_input)) =
  Returned (lit "Error: No command specified").
Proof. reflexivity. Qed.


(* ================================================================== *)
(** * Tier exclusivity *)
(* ================================================================== *)

Module Exclusivity.

Lemma tier_eq_dec (a b : MemoryTier) : {a = b} + {a <> b}.
Proof. decide equality. Qed.

Lemma str_eq_dec (a b : str) : {a = b} + {a <> b}.
Proof.
  destruct (str_eqb a b) eqn:E.
  - left. now apply str_eqb_eq.
  - right. now apply str_eqb_neq.
Qed.

Lemma exclusive_init : exclusive init.
Proof.
  intros k t t' H. unfold block_at in H. destruct t; simpl in H; congruence.
Qed.

(** A state that holds no key the other does not hold inherits
    exclusivity. *)
Lemma exclusive_fewer_keys self self' :
  (forall t k, block_at self t k = None -> block_at self' t k = None) ->
  exclusive self -> exclusive self'.
Proof.
  intros Hsub Hex k t t' H1 H2. apply (Hex k).
  - intros E. apply H1. now apply Hsub.
  - intros E. apply H2. now apply Hsub.
Qed.

(** Exclusivity reads the tier mappings only. *)
Lemma exclusive_same_blocks self self' :
  (forall t, memory_blocks self' t = memory_blocks self t) ->
  exclusive self -> exclusive self'.
Proof.
  intros Heq. apply exclusive_fewer_keys. intros t k. unfold block_at.
  now rewrite Heq.
Qed.

(** A state in which one key is held by tier [t] at most, and which holds
    no other key the first does not hold, inherits exclusivity. *)
Lemma exclusive_new_key self self' t k0 :
  (forall t', t' <> t -> block_at self' t' k0 = None) ->
  (forall t' k, k <> k0 ->
     block_at self t' k = None -> block_at self' t' k = None) ->
  exclusive self -> exclusive self'.
Proof.
  intros Hk0 Hsub Hex k t1 t2 H1 H2.
  destruct (str_eq_dec k k0) as [->|Hne].
  - destruct (tier_eq_dec t1 t) as [->|N1].
    + destruct (tier_eq_dec t2 t) as [->|N2]; [reflexivity|].
      exfalso. apply H2. now apply Hk0.
    + exfalso. apply H1. now apply Hk0.
  - apply (Hex k).
    + intros E. apply H1. apply Hsub; auto.
    + intros E. apply H2. apply Hsub; auto.
Qed.

Lemma move_exclusive path f t self :
  exclusive self -> exclusive (_move_between_tiers path f t self).
Proof.
  intros Hex.
  destruct (block_at self f path) as [b|] eqn:Hb;
    [|now rewrite move_absent].
  apply (exclusive_new_key self _ t path); [| |assumption].
  - intros t' Ht'. destruct (tier_eq_dec t' f) as [->|Hf].
    + now apply (move_moves path f t self b).
    + unfold block_at. rewrite move_other_tier by assumption.
      destruct (OD.get path (memory_blocks self t')) eqn:E; [|reflexivity].
      exfalso. apply Hf. apply (Hex path); unfold block_at in *; congruence.
  - intros t' k Hk Hnone. now rewrite move_other_key.
Qed.

Lemma fold_exclusive (step : AdvancedMemory -> str * MemoryBlock ->
                             AdvancedMemory) items :
  (forall self item, exclusive self -> exclusive (step self item)) ->
  forall self, exclusive self -> exclusive (fold_left step items self).
Proof.
  intros Hstep. induction items as [|item items IH]; intros self Hex;
    simpl; [assumption|].
  apply IH. now apply Hstep.
Qed.

Lemma reorganize_exclusive now self :
  exclusive self -> exclusive (_reorganize_memories now self).
Proof.
  intros Hex. unfold _reorganize_memories, archive_pass, demote_pass,
    promote_pass.
  repeat (apply fold_exclusive;
          [intros s [path b] Hs;
           unfold promote_step, demote_step, archive_step;
           repeat match goal with
                  | |- context [if ?c then _ else _] => destruct c
                  end;
           try assumption; now apply move_exclusive|]).
  assumption.
Qed.

Lemma reorganize_if_needed_exclusive now self :
  exclusive self -> exclusive (_reorganize_if_needed now self).
Proof.
  intros Hex. unfold _reorganize_if_needed.
  destruct (_ <=? _).
  - eapply exclusive_same_blocks;
      [|apply (reorganize_exclusive now
                 (set_reorganize_counter (reorganize_counter self + 1) self))].
    + intros t. now destruct t.
    + eapply exclusive_same_blocks; [|exact Hex]. intros t. now destruct t.
  - eapply exclusive_same_blocks; [|exact Hex]. intros t. now destruct t.
Qed.

Lemma view_exclusive now self path view_range :
  exclusive self -> exclusive (snd (view now self path view_range)).
Proof.
  apply exclusive_fewer_keys. intros t k. apply view_keeps_none.
Qed.

Lemma delete_exclusive self path :
  exclusive self -> exclusive (snd (delete self path)).
Proof.
  apply exclusive_fewer_keys. intros t k. apply delete_keeps_none.
Qed.

Lemma store_mutated_exclusive now self k tier b c :
  block_at self tier k = Some b ->
  exclusive self -> exclusive (store_mutated now self k tier b c).
Proof.
  intros Hb Hex. unfold store_mutated.
  match goal with
  | |- exclusive (if _ then _move_between_tiers _ _ _ ?s else _) =>
      assert (Hs : exclusive s)
  end.
  { eapply exclusive_fewer_keys; [|exact Hex].
    intros t' k' Hn. eapply set_found_keeps_none; eassumption. }
  destruct (negb _); [now apply move_exclusive | assumption].
Qed.

Lemma str_replace_exclusive now self path old new :
  exclusive self -> exclusive (snd (str_replace now self path old new)).
Proof.
  intros Hex. unfold str_replace.
  destruct (_find_in_tiers self (_validate_path path)) as [[t b]|] eqn:Hfind;
    [|assumption].
  destruct (negb _); [assumption|]. simpl snd.
  apply store_mutated_exclusive; [now apply find_some | assumption].
Qed.

(** [create] keeps exclusivity when no tier holds the key. *)
Lemma create_absent_exclusive now self path text :
  _find_in_tiers self (_validate_path path) = None ->
  exclusive self -> exclusive (snd (create now self path text)).
Proof.
  intros Hfind Hex. rewrite find_none in Hfind. unfold create. simpl snd.
  set (tier := _determine_tier now self (_validate_path path) text).
  apply (exclusive_new_key self _ tier (_validate_path path));
    [| |assumption].
  - intros t' Ht'. unfold block_at. rewrite blocks_set_other by congruence.
    apply Hfind.
  - intros t' k Hk Hnone. unfold block_at in *.
    destruct (tier_eq_dec tier t') as [<-|Hne].
    + rewrite blocks_set_same. now rewrite get_set_other.
    + now rewrite blocks_set_other.
Qed.

Lemma insert_exclusive now self path line text :
  exclusive self -> exclusive (snd (insert now self path line text)).
Proof.
  intros Hex. unfold insert.
  destruct (_find_in_tiers self (_validate_path path)) as [[t b]|] eqn:Hfind.
  - destruct (_ <? _); [assumption|]. simpl snd.
    apply store_mutated_exclusive; [now apply find_some | assumption].
  - destruct (_ =? _); [|assumption].
    now apply create_absent_exclusive.
Qed.

Lemma rename_exclusive self old_path new_path :
  exclusive self -> exclusive (snd (rename self old_path new_path)).
Proof.
  intros Hex. unfold rename.
  destruct (_find_in_tiers self (_validate_path old_path)) as [[t b]|];
    [|assumption].
  destruct (_find_in_tiers self (_validate_path new_path)) eqn:Hnew;
    [assumption|].
  rewrite find_none in Hnew. simpl snd.
  set (self1 := set_blocks t (OD.pop (_validate_path old_path)
                                     (memory_blocks self t)) self).
  set (self2 := set_blocks t (OD.set (_validate_path new_path) b
                                     (memory_blocks self1 t)) self1).
  assert (H2 : exclusive self2).
  { apply (exclusive_new_key self _ t (_validate_path new_path));
      [| |assumption].
    - intros t' Ht'. unfold self2, self1, block_at.
      rewrite !blocks_set_other by congruence. apply Hnew.
    - intros t' k Hk Hnone.
      assert (H1 : block_at self1 t' k = None) by now apply pop_keeps_none.
      unfold self2, block_at in *.
      destruct (tier_eq_dec t t') as [<-|Hne].
      + rewrite blocks_set_same. now rewrite get_set_other.
      + now rewrite blocks_set_other. }
  eapply exclusive_same_blocks; [|exact H2].
  intros t'. destruct (OD.get _ (access_patterns self2)); now destruct t'.
Qed.

Lemma handlers_get_cases cmd h :
  OD.get cmd handlers = Some h ->
  (cmd = lit "view" /\ h = _handle_view) \/
  (cmd = lit "create" /\ h = _handle_create) \/
  (cmd = lit "str_replace" /\ h = _handle_str_replace) \/
  (cmd = lit "insert" /\ h = _handle_insert) \/
  (cmd = lit "delete" /\ h = _handle_delete) \/
  (cmd = lit "rename" /\ h = _handle_rename).
Proof.
  unfold handlers. simpl OD.get.
  repeat match goal with
  | |- context [str_eqb cmd ?name] =>
      let E := fresh "E" in
      destruct (str_eqb cmd name) eqn:E;
      [apply str_eqb_eq in E; intros H; inversion H; subst; tauto | clear E]
  end.
  discriminate.
Qed.

(** Every command but [create] keeps tier exclusivity, the reorganization
    that may follow it included. *)
Lemma exclusive_kept_without_create now self input :
  command input <> Some (PyStr (lit "create")) ->
  exclusive self -> exclusive (snd (handle_tool_call now self input)).
Proof.
  intros Hcmd Hex. unfold handle_tool_call.
  destruct (command input) as [c|]; [|assumption].
  destruct (negb (truthy c)); [assumption|].
  destruct c; cbn [handlers_get]; try assumption.
  destruct (OD.get s handlers) as [h|] eqn:Hh; [|assumption].
  assert (Hb : exclusive (bump (format_value (PyStr s)) self)).
  { eapply exclusive_same_blocks; [|exact Hex]. intros t. now destruct t. }
  assert (Hh' : exclusive (snd (h now (bump (format_value (PyStr s)) self)
                                  input))).
  { apply handlers_get_cases in Hh
      as [[-> ->]|[[-> ->]|[[-> ->]|[[-> ->]|[[-> ->]|[-> ->]]]]]].
    - unfold _handle_view. now apply view_exclusive.
    - congruence.
    - unfold _handle_str_replace.
      destruct (path input) as [[|ch p]|]; try assumption.
      destruct (old_str input); try assumption.
      destruct (new_str input); try assumption.
      now apply str_replace_exclusive.
    - unfold _handle_insert.
      destruct (path input) as [[|ch p]|]; try assumption.
      destruct (insert_line input); try assumption.
      now apply insert_exclusive.
    - unfold _handle_delete.
      destruct (path input) as [[|ch p]|]; try assumption.
      now apply delete_exclusive.
    - unfold _handle_rename.
      destruct (old_path input) as [[|ch p]|]; try assumption.
      destruct (new_path input) as [[|dh q]|]; try assumption.
      now apply rename_exclusive. }
  destruct (h now (bump (format_value (PyStr s)) self) input)
    as [[result|e] self2]; simpl in *.
  - now apply reorganize_if_needed_exclusive.
  - assumption.
Qed.

(** So does every sequence of calls with no [create] in it. *)
Lemma run_exclusive calls :
  Forall (fun c => command (snd c) <> Some (PyStr (lit "create"))) calls ->
  forall self, exclusive self -> exclusive (run self calls).
Proof.
  induction 1 as [|[now input] calls Hc _ IH]; intros self Hex; simpl;
    [assumption|].
  apply IH. now apply exclusive_kept_without_create.
Qed.

(** Two creates of one path can end in a state that is not exclusive. *)
Lemma created_twice_not_exclusive : ~ exclusive created_twice.
Proof.
  intros Hex.
  assert (H : WORKING = ARCHIVAL);
    [apply (Hex (lit "a")); vm_compute; discriminate | discriminate].
Qed.

End Exclusivity.


(* ================================================================== *)
(** * Path sanitizer *)
(* ================================================================== *)

Module PathFacts.

Lemma replace_slash (s : str) :
  replace (lit "/") (lit "_") s = map flatten_char s.
Proof.
  change (replace (lit "/") (lit "_") s)
    with (replace_from [slash] [underscore] 0 s).
  induction s as [|c s IH]; [reflexivity|].
  cbn [replace_from startswith List.length Nat.sub map].
  unfold flatten_char at 1. rewrite N.eqb_sym.
  destruct (N.eqb c slash); cbn [andb]; rewrite IH; reflexivity.
Qed.

Lemma flatten_char_no_slash c : flatten_char c <> slash.
Proof.
  unfold flatten_char. destruct (N.eqb_spec c slash); [discriminate|assumption].
Qed.



Lemma map_flatten_no_slash (rest : str) : ~ In slash (map flatten_char rest).
Proof.
  intros H. apply in_map_iff in H as [c [Hc _]].
  now apply (flatten_char_no_slash c).
Qed.

Lemma validate_path_map path :
  exists rest, _validate_path path = map flatten_char rest.
Proof.
  unfold _validate_path. rewrite replace_slash. eexists. reflexivity.
Qed.

End PathFacts.

Import PathFacts.

(** X1. The key [_validate_path] gives holds no path separator: the tiers
    are flat, whatever path comes in. *)
Theorem validate_path_flat (path : str) : ~ In slash (_validate_path path).
Proof.
  destruct (validate_path_map path) as [rest ->].
  apply map_flatten_no_slash.
Qed.


(** X3. The virtual root is optional: for a relative path [p] the paths
    [/memories/p] and [p] give one key, [p] with every separator turned
    into an underscore. *)
Theorem validate_path_root_optional (p : str) :
  startswith (lit "/") p = false ->
  _validate_path (lit "/memories/" ++ p) = map flatten_char p /\
  _validate_path p = map flatten_char p.
Proof.
  intros Hrel.
  assert (Hmem : startswith (lit "/memories") p = false).
  { destruct p as [|c p]; [reflexivity|].
    change (lit "/memories") with (slash :: lit "memories").
    change (lit "/") with [slash] in Hrel. cbn [startswith] in *.
    destruct (N.eqb slash c); [discriminate|reflexivity]. }
  split.
  - unfold _validate_path.
    change (lit "/memories/" ++ p) with (lit "/memories" ++ lit "/" ++ p).
    rewrite startswith_app.
    change (skipn 9 (lit "/memories" ++ lit "/" ++ p)) with (lit "/" ++ p).
    rewrite startswith_app. change (skipn 1 (lit "/" ++ p)) with p.
    apply replace_slash.
  - unfold _validate_path. rewrite Hmem, Hrel. apply replace_slash.
Qed.

Lemma validate_path_root_optional_witness :
  startswith (lit "/") (lit "a/b.txt") = false /\
  _validate_path (lit "/memories/a/b.txt") = lit "a_b.txt" /\
  _validate_path (lit "a/b.txt") = lit "a_b.txt".
Proof.
  assert (H : startswith (lit "/") (lit "a/b.txt") = false) by reflexivity.
  split; [exact H|].
  exact (validate_path_root_optional (lit "a/b.txt") H).
Defined.

(* ================================================================== *)
(** * Lookup and prediction *)
(* ================================================================== *)


(** X4. The prediction set is an optimisation only: whatever it holds, the
    lookup answers with the first of working, archival, overflow that
    holds the key. *)
Theorem find_ignores_prediction (self : AdvancedMemory) (predicted : list str)
    (k : str) :
  _find_in_tiers (set_predicted_next predicted self) k =
    first_tier_with self k [WORKING; ARCHIVAL; OVERFLOW] /\
  _find_in_tiers self k =
    first_tier_with self k [WORKING; ARCHIVAL; OVERFLOW].
Proof.
  unfold _find_in_tiers. simpl.
  split;
    destruct (existsb _ _);
    destruct (OD.get k (working_blocks self));
    destruct (OD.get k (archival_blocks self)); reflexivity.
Qed.

(** X5. After [_predict_next_access] for a path, the prediction set holds
    exactly the other keys with a recorded access less than 10 seconds
    away from the last recorded access of the path; it never holds the
    path itself, and it is empty when the path has no recorded access. *)
Theorem predict_next_access_spec (self : AdvancedMemory) (current k : str) :
  In k (predicted_next (_predict_next_access self current)) <->
  k <> current /\
  exists earlier last_time t,
    history self current = earlier ++ [last_time] /\
    In t (history self k) /\ Z.abs (t - last_time) < 10.
Proof.
  unfold _predict_next_access, history. simpl.
  destruct (OD.get current (access_patterns self)) as [times|] eqn:Hcur.
  - destruct (rev times) as [|last_time r] eqn:Hrev.
    + split; [contradiction|].
      intros (_ & earlier & l & t & Heq & _).
      apply (f_equal (@rev Z)) in Heq. rewrite rev_app_distr in Heq.
      simpl in Heq. congruence.
    + assert (Htimes : times = rev r ++ [last_time]).
      { rewrite <- (rev_involutive times), Hrev. reflexivity. }
      split.
      * intros Hin. apply in_map_iff in Hin as [[k' ts] [Ek Hin]].
        simpl in Ek. subst k'. apply filter_In in Hin as [Hin Hf].
        apply in_items_get in Hin. apply andb_true_iff in Hf as [Hne Hex].
        apply negb_true_iff, str_eqb_neq in Hne.
        apply existsb_exists in Hex as [t [Ht Habs]].
        apply Z.ltb_lt in Habs.
        split; [assumption|]. exists (rev r), last_time, t.
        rewrite Hin. auto.
      * intros (Hne & earlier & l & t & Heq & Ht & Habs).
        rewrite Htimes in Heq. apply app_inj_tail in Heq as [_ <-].
        destruct (OD.get k (access_patterns self)) as [ts|] eqn:Hk;
          [|contradiction].
        apply in_map_iff. exists (k, ts). split; [reflexivity|].
        apply filter_In. split; [now apply in_items_get|].
        apply andb_true_iff. split.
        -- now apply negb_true_iff, str_eqb_neq.
        -- apply existsb_exists. exists t. split; [assumption|].
           now apply Z.ltb_lt.
  - split; [contradiction|].
    intros (_ & earlier & l & t & Heq & _).
    destruct earlier; discriminate.
Qed.


(* ================================================================== *)
(** * View *)
(* ================================================================== *)

Lemma not_root_path path :
  str_eqb path (lit "/memories") || str_eqb path [] = false <->
  path <> lit "/memories" /\ path <> [].
Proof.
  rewrite orb_false_iff, !str_eqb_neq. tauto.
Qed.

(** [view] on a file some tier holds. *)
Lemma view_found now self path view_range t b :
  path <> lit "/memories" -> path <> [] ->
  _find_in_tiers self (_validate_path path) = Some (t, b) ->
  view now self path view_range =
  (view_content (content b) view_range,
   bump (lit "view_" ++ tier_value t)
     (_predict_next_access
        (record_access now (_validate_path path)
           (set_blocks t
              (OD.set (_validate_path path) (update_access now b)
                      (memory_blocks self t)) self))
        (_validate_path path))).
Proof.
  intros Hr1 Hr2 Hfind.
  assert (Hroot : str_eqb path (lit "/memories") || str_eqb path [] = false)
    by now apply not_root_path.
  unfold view. now rewrite Hroot, Hfind.
Qed.

Lemma patterns_bump_predict x c self :
  access_patterns (bump x (_predict_next_access self c)) =
  access_patterns self.
Proof. reflexivity. Qed.

Lemma predicted_bump_predict x c self :
  predicted_next (bump x (_predict_next_access self c)) =
  predicted_next (_predict_next_access self c).
Proof. reflexivity. Qed.

Lemma predict_excludes_current self current :
  ~ In current (predicted_next (_predict_next_access self current)).
Proof.
  unfold _predict_next_access. simpl.
  destruct (OD.get current (access_patterns self)); [|tauto].
  destruct (rev l); [tauto|].
  intros Hin. apply in_map_iff in Hin as [[k ts] [Ek Hin]].
  simpl in Ek. subst k. apply filter_In in Hin as [_ Hf].
  rewrite str_eqb_refl in Hf. discriminate.
Qed.

(** X6. A successful [view] of a file returns its content, appends the
    time of the call to the history of its key and to no other history,
    leaves every other block as it was and never predicts the viewed key
    itself. *)
Theorem view_records_access (now : Z) (self : AdvancedMemory) (path : str)
    (t : MemoryTier) (b : MemoryBlock) :
  path <> lit "/memories" -> path <> [] ->
  _find_in_tiers self (_validate_path path) = Some (t, b) ->
  fst (view now self path None) = Returned (content b) /\
  history (snd (view now self path None)) (_validate_path path) =
    history self (_validate_path path) ++ [now] /\
  (forall k, k <> _validate_path path ->
     history (snd (view now self path None)) k = history self k) /\
  (forall t' k, k <> _validate_path path \/ t' <> t ->
     block_at (snd (view now self path None)) t' k = block_at self t' k) /\
  ~ In (_validate_path path) (predicted_next (snd (view now self path None))).
Proof.
  intros Hr1 Hr2 Hfind.
  rewrite (view_found now self path None t b Hr1 Hr2 Hfind).
  simpl fst. simpl snd.
  set (key := _validate_path path).
  set (self1 := set_blocks t (OD.set key (update_access now b)
                                     (memory_blocks self t)) self).
  assert (Hpat : access_patterns (record_access now key self1) =
                 OD.set key (history self key ++ [now])
                        (access_patterns self)).
  { unfold record_access, history, self1. rewrite patterns_set_blocks.
    reflexivity. }
  split; [reflexivity|]. split; [|split; [|split]].
  - unfold history at 1. rewrite patterns_bump_predict, Hpat.
    now rewrite get_set_same.
  - intros k Hk. unfold history at 1. rewrite patterns_bump_predict, Hpat.
    now rewrite get_set_other.
  - intros t' k Hor.
    transitivity (block_at self1 t' k);
      [unfold block_at; now destruct t'|].
    unfold self1, block_at.
    destruct (Exclusivity.tier_eq_dec t t') as [<-|Hne].
    + rewrite blocks_set_same. destruct Hor as [Hk|Ht]; [|congruence].
      now apply get_set_other.
    + now rewrite blocks_set_other.
  - rewrite predicted_bump_predict. apply predict_excludes_current.
Qed.

Lemma view_records_access_witness :
  (lit "/memories/a" <> lit "/memories" /\ lit "/memories/a" <> [] /\
   _find_in_tiers hello_store (_validate_path (lit "/memories/a")) =
     Some (WORKING, mkBlock (lit "hello") WORKING 0 0 (1 # 2) 0 5)) /\
  fst (view 50 hello_store (lit "/memories/a") None) = Returned (lit "hello") /\
  history hello_viewed (lit "a") = [50].
Proof.
  assert (H1 : lit "/memories/a" <> lit "/memories") by discriminate.
  assert (H2 : lit "/memories/a" <> []) by discriminate.
  assert (H3 : _find_in_tiers hello_store (_validate_path (lit "/memories/a"))
               = Some (WORKING, mkBlock (lit "hello") WORKING 0 0 (1 # 2) 0 5))
    by (vm_compute; reflexivity).
  split; [auto|].
  destruct (view_records_access 50 hello_store (lit "/memories/a") _ _
              H1 H2 H3) as (Hret & Hhist & _).
  split; [exact Hret | exact Hhist].
Defined.






(* ================================================================== *)
(** * Delete and rename *)
(* ================================================================== *)

(** X8. [delete] of a path no tier holds answers with the not-found string
    and changes nothing.  Otherwise it removes the key from the tier the
    lookup found it in, drops the key's access history and its membership
    of the prediction set, and leaves every other block alone; if the
    tiers were exclusive, no tier holds the key afterwards. *)
Theorem delete_cleans_up (self : AdvancedMemory) (path : str) :
  (_find_in_tiers self (_validate_path path) = None ->
   delete self path =
   (Returned (lit "Error: Path does not exist: " ++ path), self)) /\
  (forall t b,
     _find_in_tiers self (_validate_path path) = Some (t, b) ->
     fst (delete self path) = Returned (lit "Deleted file: " ++ path) /\
     block_at (snd (delete self path)) t (_validate_path path) = None /\
     OD.get (_validate_path path)
            (access_patterns (snd (delete self path))) = None /\
     ~ In (_validate_path path) (predicted_next (snd (delete self path))) /\
     (forall t' k, k <> _validate_path path \/ t' <> t ->
        block_at (snd (delete self path)) t' k = block_at self t' k) /\
     (exclusive self ->
      _find_in_tiers (snd (delete self path)) (_validate_path path) = None)).
Proof.
  split.
  - intros Hfind. unfold delete. now rewrite Hfind.
  - intros t b Hfind. unfold delete. rewrite Hfind. simpl fst. simpl snd.
    set (key := _validate_path path).
    set (self1 := set_blocks t (OD.pop key (memory_blocks self t)) self).
    assert (Hblocks : forall t' k,
              block_at (set_predicted_next
                          (filter (fun k0 => negb (str_eqb k0 key))
                             (predicted_next
                                (set_access_patterns
                                   (OD.pop key (access_patterns self1))
                                   self1)))
                          (set_access_patterns
                             (OD.pop key (access_patterns self1)) self1))
                       t' k = block_at self1 t' k)
      by (intros t' k; unfold block_at; now destruct t').
    assert (Hkey : block_at self1 t key = None).
    { unfold self1, block_at. rewrite blocks_set_same. apply get_pop_same. }
    assert (Hframe : forall t' k, k <> key \/ t' <> t ->
              block_at self1 t' k = block_at self t' k).
    { intros t' k Hor. unfold self1, block_at.
      destruct (Exclusivity.tier_eq_dec t t') as [<-|Hne].
      - rewrite blocks_set_same. destruct Hor as [Hk|Ht]; [|congruence].
        now apply get_pop_other.
      - now rewrite blocks_set_other. }
    split; [reflexivity|]. split; [now rewrite Hblocks|].
    split; [simpl; apply get_pop_same|]. split.
    + simpl. intros Hin. apply filter_In in Hin as [_ Hf].
      fold key in Hf. rewrite str_eqb_refl in Hf. discriminate.
    + split.
      * intros t' k Hor. rewrite Hblocks. now apply Hframe.
      * intros Hex. apply find_none. intros t'. rewrite Hblocks.
        destruct (Exclusivity.tier_eq_dec t' t) as [->|Hne];
          [assumption|].
        rewrite Hframe by (now right).
        destruct (block_at self t' key) eqn:E; [|reflexivity].
        exfalso. apply Hne. apply (Hex key).
        -- congruence.
        -- apply find_some in Hfind. fold key in Hfind. congruence.
Qed.

Lemma delete_cleans_up_witness :
  _find_in_tiers hello_viewed (_validate_path (lit "/memories/a")) =
    Some (WORKING, mkBlock (lit "hello") WORKING 1 50 (1 # 2) 0 5) /\
  OD.get (lit "a") (access_patterns hello_viewed) = Some [50] /\
  OD.get (_validate_path (lit "/memories/a"))
         (access_patterns (snd (delete hello_viewed (lit "/memories/a")))) =
    None.
Proof.
  assert (H : _find_in_tiers hello_viewed (_validate_path (lit "/memories/a"))
              = Some (WORKING, mkBlock (lit "hello") WORKING 1 50 (1 # 2) 0 5))
    by (vm_compute; reflexivity).
  split; [exact H|]. split; [vm_compute; reflexivity|].
  exact (proj1 (proj2 (proj2
           (proj2 (delete_cleans_up hello_viewed (lit "/memories/a"))
                  WORKING _ H)))).
Defined.



(* ================================================================== *)
(** * The reorganization counter *)
(* ================================================================== *)

Module CounterFacts.












End CounterFacts.

Import CounterFacts.




(* ================================================================== *)
(** * Promotion and archival *)
(* ================================================================== *)

(** The promotion loop over items of which those under [k] hold a block
    that is not hot. *)
Lemma promote_fold_cold now k b items : forall self,
  (forall blk, In (k, blk) items -> blk = b) ->
  (access_count b <= 5 \/ 300 <= now - last_access b) ->
  forall t,
    block_at (fold_left (promote_step now) items self) t k =
    block_at self t k.
Proof.
  induction items as [|[path blk] items IH]; intros self Hown Hcold t;
    [reflexivity|].
  simpl fold_left. rewrite IH; [|intros; apply Hown; now right|assumption].
  destruct (Exclusivity.str_eq_dec k path) as [<-|Hne];
    [|now apply promote_step_other_key].
  rewrite (Hown blk) by now left.
  unfold promote_step.
  destruct (Z.ltb_spec 5 (access_count b)); simpl; [|reflexivity].
  destruct (Z.ltb_spec (now - last_access b) 300); simpl; [lia|reflexivity].
Qed.

(** X11. Promotion needs heat: an archival block with at most 5 recorded
    accesses, or last accessed 300 seconds ago or earlier, is left in
    archival by the promotion pass, and the pass puts nothing under its key
    in working. *)
Theorem promotion_needs_heat (now : Z) (self : AdvancedMemory) (k : str)
    (b : MemoryBlock) :
  block_at self ARCHIVAL k = Some b ->
  access_count b <= 5 \/ 300 <= now - last_access b ->
  block_at (promote_pass now self) ARCHIVAL k = Some b /\
  block_at (promote_pass now self) WORKING k = block_at self WORKING k.
Proof.
  intros Hb Hcold.
  assert (H : forall t, block_at (promote_pass now self) t k =
                        block_at self t k).
  { intros t. unfold promote_pass.
    apply (promote_fold_cold now k b); [|assumption].
    intros blk Hin. apply in_items_get in Hin.
    unfold block_at in Hb. simpl in Hb. congruence. }
  rewrite !H. auto.
Qed.

Lemma promotion_needs_heat_witness :
  (block_at hot_and_cold ARCHIVAL (lit "cold") =
     Some (mkBlock (xs 20) ARCHIVAL 2 100 (1 # 2) 0 20) /\
   (2 <= 5 \/ 300 <= 150 - 100)) /\
  block_at (promote_pass 150 hot_and_cold) ARCHIVAL (lit "cold") =
    Some (mkBlock (xs 20) ARCHIVAL 2 100 (1 # 2) 0 20) /\
  block_at (promote_pass 150 hot_and_cold) WORKING (lit "hot") =
    Some (mkBlock (xs 10) WORKING 6 100 (1 # 2) 0 10).
Proof.
  assert (H1 : block_at hot_and_cold ARCHIVAL (lit "cold") =
               Some (mkBlock (xs 20) ARCHIVAL 2 100 (1 # 2) 0 20))
    by reflexivity.
  assert (H2 : 2 <= 5 \/ 300 <= 150 - 100) by (left; lia).
  split; [auto|]. split.
  - exact (proj1 (promotion_needs_heat 150 hot_and_cold (lit "cold") _ H1 H2)).
  - vm_compute. reflexivity.
Defined.

(** X12. The archival threshold: a block the last pass finds in archival
    is moved to overflow when its last access is more than 3600 seconds
    old, and is left in archival otherwise. *)
Theorem archival_threshold (now : Z) (self : AdvancedMemory) (k : str)
    (b : MemoryBlock) :
  block_at (demote_pass now (promote_pass now self)) ARCHIVAL k = Some b ->
  (3600 < now - last_access b ->
     block_at (_reorganize_memories now self) ARCHIVAL k = None /\
     block_at (_reorganize_memories now self) OVERFLOW k =
       Some (set_tier OVERFLOW b)) /\
  (now - last_access b <= 3600 ->
     block_at (_reorganize_memories now self) ARCHIVAL k = Some b).
Proof.
  intros Hb. unfold _reorganize_memories. rewrite archive_pass_ageing.
  destruct (ageing_pass ARCHIVAL OVERFLOW
              (fun b => 3600 <? now - last_access b) ltac:(discriminate)
              _ k b Hb) as [Hold Hyoung].
  split; intros Hage.
  - apply Hold. apply Z.ltb_lt. lia.
  - apply Hyoung. apply Z.ltb_ge. lia.
Qed.

Lemma archival_threshold_witness :
  block_at (demote_pass 3701 (promote_pass 3701 hot_and_cold)) ARCHIVAL
           (lit "cold") =
    Some (mkBlock (xs 20) ARCHIVAL 2 100 (1 # 2) 0 20) /\
  block_at (_reorganize_memories 3701 hot_and_cold) OVERFLOW (lit "cold") =
    Some (mkBlock (xs 20) OVERFLOW 2 100 (1 # 2) 0 20).
Proof.
  assert (H : block_at (demote_pass 3701 (promote_pass 3701 hot_and_cold))
                       ARCHIVAL (lit "cold") =
              Some (mkBlock (xs 20) ARCHIVAL 2 100 (1 # 2) 0 20))
    by (vm_compute; reflexivity).
  split; [exact H|].
  destruct (archival_threshold 3701 hot_and_cold (lit "cold") _ H)
    as [Hold _].
  apply Hold. simpl. lia.
Defined.

(** X13. One run of the reorganizer takes a working block that has been
    idle for more than 3600 seconds all the way to overflow: the demotion
    pass moves it to archival and the archival pass, which runs on the
    updated archival tier, moves it on. *)
Theorem idle_hour_reaches_overflow (now : Z) (self : AdvancedMemory)
    (k : str) (b : MemoryBlock) :
  block_at (promote_pass now self) WORKING k = Some b ->
  3600 < now - last_access b ->
  block_at (_reorganize_memories now self) WORKING k = None /\
  block_at (_reorganize_memories now self) ARCHIVAL k = None /\
  block_at (_reorganize_memories now self) OVERFLOW k =
    Some (set_tier OVERFLOW b).
Proof.
  intros Hb Hage. unfold _reorganize_memories.
  destruct (ageing_pass WORKING ARCHIVAL
              (fun b => 600 <? now - last_access b) ltac:(discriminate)
              _ k b Hb) as [Hdem _].
  rewrite <- demote_pass_ageing in Hdem.
  destruct Hdem as [Hw Ha]; [apply Z.ltb_lt; lia|].
  destruct (ageing_pass ARCHIVAL OVERFLOW
              (fun b => 3600 <? now - last_access b) ltac:(discriminate)
              _ k _ Ha) as [Harc _].
  rewrite <- archive_pass_ageing in Harc.
  destruct Harc as [Ha' Ho]; [simpl; apply Z.ltb_lt; lia|].
  split; [|split; assumption].
  unfold block_at. rewrite archive_pass_working. exact Hw.
Qed.

Lemma idle_hour_reaches_overflow_witness :
  (block_at (promote_pass 4000 hello_store) WORKING (lit "a") =
     Some (mkBlock (lit "hello") WORKING 0 0 (1 # 2) 0 5) /\
   3600 < 4000 - 0) /\
  block_at (_reorganize_memories 4000 hello_store) OVERFLOW (lit "a") =
    Some (mkBlock (lit "hello") OVERFLOW 0 0 (1 # 2) 0 5).
Proof.
  assert (H1 : block_at (promote_pass 4000 hello_store) WORKING (lit "a") =
               Some (mkBlock (lit "hello") WORKING 0 0 (1 # 2) 0 5))
    by (vm_compute; reflexivity).
  assert (H2 : 3600 < 4000 - 0) by lia.
  split; [auto|].
  exact (proj2 (proj2 (idle_hour_reaches_overflow 4000 hello_store (lit "a")
                         _ H1 H2))).
Defined.

(* ================================================================== *)
(** * Properties of every stored block *)
(* ================================================================== *)

Module BlockFacts.

Lemma get_set_cases {V} (k k0 : str) (v b : V) (d : OD.odict V) :
  OD.get k (OD.set k0 v d) = Some b -> b = v \/ OD.get k d = Some b.
Proof.
  destruct (Exclusivity.str_eq_dec k k0) as [->|Hne].
  - rewrite get_set_same. intros H. left. congruence.
  - rewrite get_set_other by assumption. auto.
Qed.

Lemma get_pop_some {V} (k k0 : str) (b : V) (d : OD.odict V) :
  OD.get k (OD.pop k0 d) = Some b -> OD.get k d = Some b.
Proof.
  destruct (Exclusivity.str_eq_dec k k0) as [->|Hne].
  - rewrite get_pop_same. discriminate.
  - now rewrite get_pop_other.
Qed.

Lemma fold_invariant {A B} (Q : A -> Prop) (step : A -> B -> A) l :
  (forall a b, Q a -> Q (step a b)) ->
  forall a, Q a -> Q (fold_left step l a).
Proof.
  intros Hstep. induction l as [|b l IH]; intros a Ha; simpl;
    [assumption|].
  apply IH. now apply Hstep.
Qed.

(** A move puts the block it finds under the path of the target tier. *)
Lemma move_target path f t self b :
  block_at self f path = Some b ->
  block_at (_move_between_tiers path f t self) t path = Some (set_tier t b).
Proof.
  unfold block_at, _move_between_tiers. intros ->.
  rewrite blocks_set_same. apply get_set_same.
Qed.

Section AllBlocks.
Variable P : MemoryBlock -> Prop.
Hypothesis P_tier : forall b t, P b -> P (set_tier t b).
Hypothesis P_access : forall b now, P b -> P (update_access now b).

Lemma all_blocks_same self self' :
  (forall t, memory_blocks self' t = memory_blocks self t) ->
  all_blocks P self -> all_blocks P self'.
Proof.
  intros Heq Hall t k b. unfold block_at. rewrite Heq. apply Hall.
Qed.

Lemma all_blocks_set self t k v :
  all_blocks P self -> P v ->
  all_blocks P (set_blocks t (OD.set k v (memory_blocks self t)) self).
Proof.
  intros Hall Hv t' k' b. unfold block_at.
  destruct (Exclusivity.tier_eq_dec t t') as [<-|Hne].
  - rewrite blocks_set_same. intros H.
    apply get_set_cases in H as [->|H]; [assumption|].
    exact (Hall t k' b H).
  - rewrite blocks_set_other by assumption. apply Hall.
Qed.

Lemma all_blocks_pop self t k :
  all_blocks P self ->
  all_blocks P (set_blocks t (OD.pop k (memory_blocks self t)) self).
Proof.
  intros Hall t' k' b. unfold block_at.
  destruct (Exclusivity.tier_eq_dec t t') as [<-|Hne].
  - rewrite blocks_set_same. intros H. apply get_pop_some in H.
    exact (Hall t k' b H).
  - rewrite blocks_set_other by assumption. apply Hall.
Qed.

Lemma all_blocks_move path f t self :
  all_blocks P self -> all_blocks P (_move_between_tiers path f t self).
Proof.
  intros Hall. unfold _move_between_tiers.
  destruct (OD.get path (memory_blocks self f)) as [b|] eqn:Hb;
    [|assumption].
  apply all_blocks_set; [now apply all_blocks_pop|].
  apply P_tier. exact (Hall f path b Hb).
Qed.

Lemma all_blocks_reorganize now self :
  all_blocks P self -> all_blocks P (_reorganize_memories now self).
Proof.
  intros Hall. unfold _reorganize_memories, archive_pass, demote_pass,
    promote_pass.
  repeat (apply fold_invariant;
          [intros s [path b] Hs;
           unfold promote_step, demote_step, archive_step;
           repeat match goal with
                  | |- context [if ?c then _ else _] => destruct c
                  end;
           try assumption; now apply all_blocks_move|]).
  assumption.
Qed.

Lemma all_blocks_reorganize_if_needed now self :
  all_blocks P self -> all_blocks P (_reorganize_if_needed now self).
Proof.
  intros Hall. unfold _reorganize_if_needed.
  destruct (_ <=? _).
  - eapply all_blocks_same;
      [|apply (all_blocks_reorganize now
                 (set_reorganize_counter (reorganize_counter self + 1) self))].
    + intros t. now destruct t.
    + eapply all_blocks_same; [|exact Hall]. intros t. now destruct t.
  - eapply all_blocks_same; [|exact Hall]. intros t. now destruct t.
Qed.

Lemma all_blocks_view now self path view_range :
  all_blocks P self -> all_blocks P (snd (view now self path view_range)).
Proof.
  intros Hall. unfold view. destruct (_ || _); [assumption|].
  destruct (_find_in_tiers self (_validate_path path)) as [[t b]|] eqn:Hfind;
    [|assumption].
  simpl snd. apply find_some in Hfind.
  eapply all_blocks_same;
    [|apply (all_blocks_set self t (_validate_path path)
               (update_access now b) Hall)].
  - intros t'. now destruct t'.
  - apply P_access. exact (Hall _ _ _ Hfind).
Qed.

Lemma all_blocks_delete self path :
  all_blocks P self -> all_blocks P (snd (delete self path)).
Proof.
  intros Hall. unfold delete.
  destruct (_find_in_tiers self (_validate_path path)) as [[t b]|];
    [|assumption].
  simpl snd.
  eapply all_blocks_same;
    [|apply (all_blocks_pop self t (_validate_path path) Hall)].
  intros t'. now destruct t'.
Qed.

Lemma all_blocks_rename self old_path new_path :
  all_blocks P self -> all_blocks P (snd (rename self old_path new_path)).
Proof.
  intros Hall. unfold rename.
  destruct (_find_in_tiers self (_validate_path old_path)) as [[t b]|]
    eqn:Hfind; [|assumption].
  destruct (_find_in_tiers self (_validate_path new_path)); [assumption|].
  simpl snd. apply find_some in Hfind.
  set (self1 := set_blocks t (OD.pop (_validate_path old_path)
                                     (memory_blocks self t)) self).
  assert (H1 : all_blocks P self1) by now apply all_blocks_pop.
  assert (H2 : all_blocks P
                 (set_blocks t (OD.set (_validate_path new_path) b
                                       (memory_blocks self1 t)) self1)).
  { apply all_blocks_set; [assumption|]. exact (Hall _ _ _ Hfind). }
  eapply all_blocks_same; [|exact H2].
  intros t'. destruct (OD.get _ (access_patterns _)); now destruct t'.
Qed.

End AllBlocks.

End BlockFacts.

Import BlockFacts.

Module SizeFacts.

Lemma sized_tier b t :
  size_bytes b = len (content b) ->
  size_bytes (set_tier t b) = len (content (set_tier t b)).
Proof. auto. Qed.

Lemma sized_access b now :
  size_bytes b = len (content b) ->
  size_bytes (update_access now b) = len (content (update_access now b)).
Proof. auto. Qed.

Lemma sizes_create now self path text :
  sizes_consistent self -> sizes_consistent (snd (create now self path text)).
Proof.
  intros Hall. unfold create. simpl snd.
  now apply all_blocks_set.
Qed.

Lemma sizes_store_mutated now self k t b c :
  sizes_consistent self -> sizes_consistent (store_mutated now self k t b c).
Proof.
  intros Hall. unfold store_mutated.
  match goal with
  | |- sizes_consistent (if _ then _move_between_tiers _ _ _ ?s else _) =>
      assert (Hs : sizes_consistent s) by now apply all_blocks_set
  end.
  destruct (negb _); [|assumption].
  apply all_blocks_move; [exact sized_tier | assumption].
Qed.

Lemma sizes_handler cmd h now self input :
  OD.get cmd handlers = Some h ->
  sizes_consistent self -> sizes_consistent (snd (h now self input)).
Proof.
  intros Hh Hall. apply Exclusivity.handlers_get_cases in Hh
    as [[-> ->]|[[-> ->]|[[-> ->]|[[-> ->]|[[-> ->]|[-> ->]]]]]].
  - apply all_blocks_view; [exact sized_access | assumption].
  - unfold _handle_create. destruct (path input) as [[|c p]|];
      try assumption. now apply sizes_create.
  - unfold _handle_str_replace. destruct (path input) as [[|c p]|];
      try assumption.
    destruct (old_str input); try assumption.
    destruct (new_str input); try assumption.
    unfold str_replace.
    destruct (_find_in_tiers self _) as [[t b]|]; [|assumption].
    destruct (negb _); [assumption|]. now apply sizes_store_mutated.
  - unfold _handle_insert. destruct (path input) as [[|c p]|];
      try assumption.
    destruct (insert_line input); try assumption.
    unfold insert.
    destruct (_find_in_tiers self _) as [[t b]|].
    + destruct (_ <? _); [assumption|]. now apply sizes_store_mutated.
    + destruct (_ =? _); [now apply sizes_create | assumption].
  - unfold _handle_delete. destruct (path input) as [[|c p]|];
      try assumption. now apply all_blocks_delete.
  - unfold _handle_rename. destruct (old_path input) as [[|c p]|];
      try assumption.
    destruct (new_path input) as [[|d q]|]; try assumption.
    now apply all_blocks_rename.
Qed.

Lemma sizes_handle_tool_call now self input :
  sizes_consistent self ->
  sizes_consistent (snd (handle_tool_call now self input)).
Proof.
  intros Hall. unfold handle_tool_call.
  destruct (command input) as [c|]; [|assumption].
  destruct (negb (truthy c)); [assumption|].
  destruct c; cbn [handlers_get]; try assumption.
  destruct (OD.get s handlers) as [h|] eqn:Hh; [|assumption].
  assert (Hb : sizes_consistent (bump (format_value (PyStr s)) self)).
  { eapply all_blocks_same; [|exact Hall]. intros t. now destruct t. }
  pose proof (sizes_handler s h now _ input Hh Hb) as Hh'.
  destruct (h now (bump (format_value (PyStr s)) self) input)
    as [[result|e] self2]; simpl in *.
  - apply all_blocks_reorganize_if_needed; [exact sized_tier | assumption].
  - assumption.
Qed.

End SizeFacts.

Import SizeFacts.

(** X14. In every state the engine reaches from the empty store, whatever
    the calls and their clock readings, the size recorded with a block is
    the length of its content. *)
Theorem sizes_always_consistent (calls : list (Z * tool_input)) :
  sizes_consistent (run init calls).
Proof.
  assert (H : forall self, sizes_consistent self ->
                           sizes_consistent (run self calls)).
  { induction calls as [|[now input] calls IH]; intros self Hs; simpl;
      [assumption|].
    apply IH. now apply sizes_handle_tool_call. }
  apply H. intros t k b Hb. unfold block_at in Hb.
  destruct t; discriminate.
Qed.

(* ================================================================== *)
(** * The size of the working tier *)
(* ================================================================== *)

Module WorkingSize.

Section Items.
Context {V : Type}.
Implicit Types (d l : OD.odict V) (k : str) (v : V).

Lemma pop_filter k l :
  OD.pop k l = filter (fun kv => negb (str_eqb (fst kv) k)) l.
Proof.
  induction l as [|[k0 v0] l IH]; [reflexivity|]. simpl.
  rewrite (str_eqb_sym k0 k). destruct (str_eqb k k0); simpl; now rewrite IH.
Qed.

Lemma get_filter_other k k0 l :
  k <> k0 ->
  OD.get k (filter (fun kv => negb (str_eqb (fst kv) k0)) l) = OD.get k l.
Proof.
  intros Hne. rewrite <- pop_filter. now apply get_pop_other.
Qed.

Lemma get_items k d : OD.get k (OD.items d) = OD.get k d.
Proof.
  induction d as [|[k0 v0] d IH]; [reflexivity|]. simpl.
  destruct (str_eqb k k0) eqn:E; [reflexivity|].
  apply str_eqb_neq in E. now rewrite get_filter_other.
Qed.

Lemma filter_set_comm k k0 v l :
  k <> k0 ->
  filter (fun kv => negb (str_eqb (fst kv) k0)) (OD.set k v l) =
  OD.set k v (filter (fun kv => negb (str_eqb (fst kv) k0)) l).
Proof.
  intros Hne. induction l as [|[k1 v1] l IH]; simpl.
  - apply str_eqb_neq in Hne. now rewrite Hne.
  - destruct (str_eqb k k1) eqn:E; simpl.
    + apply str_eqb_eq in E. subst k1.
      apply str_eqb_neq in Hne. rewrite Hne. simpl.
      now rewrite str_eqb_refl.
    + destruct (negb (str_eqb k1 k0)) eqn:E0; simpl.
      * now rewrite E, IH.
      * exact IH.
Qed.

Lemma items_set k v d : OD.items (OD.set k v d) = OD.set k v (OD.items d).
Proof.
  induction d as [|[k0 v0] d IH]; [reflexivity|]. simpl.
  destruct (str_eqb k k0) eqn:E; simpl; [reflexivity|].
  apply str_eqb_neq in E. now rewrite IH, filter_set_comm.
Qed.

Lemma filter_filter_comm (f g : str * V -> bool) (l : list (str * V)) :
  filter f (filter g l) = filter g (filter f l).
Proof.
  induction l as [|x l IH]; [reflexivity|]. simpl.
  destruct (f x) eqn:Ef, (g x) eqn:Eg; simpl; rewrite ?Ef, ?Eg, IH;
    reflexivity.
Qed.

Lemma filter_twice (f : str * V -> bool) (l : list (str * V)) :
  filter f (filter f l) = filter f l.
Proof.
  induction l as [|x l IH]; [reflexivity|]. simpl.
  destruct (f x) eqn:Ef; simpl; rewrite ?Ef, IH; reflexivity.
Qed.

Lemma items_pop k d :
  OD.items (OD.pop k d) =
  filter (fun kv => negb (str_eqb (fst kv) k)) (OD.items d).
Proof.
  induction d as [|[k0 v0] d IH]; [reflexivity|]. simpl.
  destruct (str_eqb k k0) eqn:E.
  - apply str_eqb_eq in E. subst k0. rewrite str_eqb_refl. simpl.
    now rewrite IH, filter_twice.
  - rewrite (str_eqb_sym k0 k), E. simpl.
    now rewrite IH, filter_filter_comm.
Qed.

End Items.

Lemma sum_sizes_set k v (l : list (str * MemoryBlock)) :
  sum_sizes (OD.set k v l) =
  sum_sizes l + size_bytes v -
  match OD.get k l with Some o => size_bytes o | None => 0 end.
Proof.
  unfold sum_sizes. induction l as [|[k0 v0] l IH]; simpl; [lia|].
  destruct (str_eqb k k0); simpl; lia.
Qed.

Lemma sum_sizes_filter (f : str * MemoryBlock -> bool) l :
  (forall k b, In (k, b) l -> 0 <= size_bytes b) ->
  sum_sizes (filter f l) <= sum_sizes l.
Proof.
  unfold sum_sizes. induction l as [|[k0 v0] l IH]; intros Hpos; simpl;
    [lia|].
  assert (H0 : 0 <= size_bytes v0) by (apply (Hpos k0); now left).
  assert (Hl : forall k b, In (k, b) l -> 0 <= size_bytes b)
    by (intros k b Hin; apply (Hpos k); now right).
  specialize (IH Hl). destruct (f (k0, v0)); simpl; lia.
Qed.

Lemma working_size_items self :
  working_size self = sum_sizes (OD.items (working_blocks self)).
Proof. reflexivity. Qed.

(** A move into working adds the block's size and takes off the size of
    the block it overwrites, if any. *)
Lemma working_size_move_in path f self b :
  f <> WORKING ->
  block_at self f path = Some b ->
  working_size (_move_between_tiers path f WORKING self) =
  working_size self + size_bytes b -
  match block_at self WORKING path with
  | Some o => size_bytes o
  | None => 0
  end.
Proof.
  intros Hf Hb. unfold block_at in *. unfold _move_between_tiers.
  rewrite Hb. rewrite !working_size_items.
  destruct f; try congruence; simpl;
    now rewrite items_set, sum_sizes_set, get_items.
Qed.

(** A move out of working does not enlarge it. *)
Lemma working_size_move_out path t self :
  t <> WORKING ->
  all_blocks (fun b => 0 <= size_bytes b) self ->
  working_size (_move_between_tiers path WORKING t self) <=
  working_size self.
Proof.
  intros Ht Hpos. unfold _move_between_tiers.
  destruct (OD.get path (memory_blocks self WORKING)); [|lia].
  rewrite !working_size_items.
  destruct t; try congruence; simpl; rewrite items_pop;
    apply sum_sizes_filter; intros k b Hin; apply in_items_get in Hin;
    exact (Hpos WORKING k b Hin).
Qed.

Lemma working_size_move_aside path self :
  working_size (_move_between_tiers path ARCHIVAL OVERFLOW self) =
  working_size self.
Proof.
  rewrite !working_size_items.
  change (working_blocks ?s) with (memory_blocks s WORKING).
  now rewrite move_other_tier by discriminate.
Qed.

Lemma nonneg_tier (b : MemoryBlock) (t : MemoryTier) :
  0 <= size_bytes b -> 0 <= size_bytes (set_tier t b).
Proof. auto. Qed.

(** The promotion loop, run over archival's own items, keeps the working
    tier within any bound of at least 4096 it was within. *)
Lemma promote_fold_cap now bound items : forall self,
  4096 <= bound ->
  NoDup (map fst items) ->
  (forall k b, In (k, b) items -> block_at self ARCHIVAL k = Some b) ->
  all_blocks (fun b => 0 <= size_bytes b) self ->
  working_size self <= bound ->
  working_size (fold_left (promote_step now) items self) <= bound /\
  all_blocks (fun b => 0 <= size_bytes b)
             (fold_left (promote_step now) items self).
Proof.
  induction items as [|[k0 b0] items IH];
    intros self Hbound Hnd Hown Hpos Hws; [simpl; auto|].
  simpl in Hnd. inversion Hnd as [|? ? Hnin Hnd']; subst.
  simpl fold_left. apply IH; try assumption.
  - intros k b Hin. rewrite (promote_step_other_key now self k0 b0).
    + apply Hown. now right.
    + intros ->. apply Hnin. apply in_map_iff. now exists (k0, b).
  - unfold promote_step.
    destruct (_ && _); [|assumption].
    destruct (within_limit _ _); [|assumption].
    apply all_blocks_move; [exact nonneg_tier | assumption].
  - unfold promote_step.
    destruct (_ && _); [|assumption].
    destruct (within_limit (working_size self + size_bytes b0) WORKING)
      eqn:Hfit; [|assumption].
    unfold within_limit in Hfit. simpl in Hfit. apply Z.leb_le in Hfit.
    rewrite (working_size_move_in k0 ARCHIVAL self b0);
      [|discriminate | apply Hown; now left].
    destruct (block_at self WORKING k0) as [o|] eqn:Ho; [|lia].
    pose proof (Hpos WORKING k0 o Ho). simpl in *. lia.
Qed.

End WorkingSize.

Import WorkingSize.

(** X15. The reorganizer never pushes the working tier over its cap: with
    every recorded size the length of its content, the working tier after
    a run sums to at most 4096, or to at most what it summed to before
    when that was more. *)
Theorem reorganize_respects_cap (now : Z) (self : AdvancedMemory) :
  sizes_consistent self ->
  working_size (promote_pass now self) <= Z.max (working_size self) 4096 /\
  working_size (_reorganize_memories now self) <=
    Z.max (working_size self) 4096.
Proof.
  intros Hsized.
  assert (Hpos : all_blocks (fun b => 0 <= size_bytes b) self).
  { intros t k b Hb. rewrite (Hsized t k b Hb). apply len_nonneg. }
  destruct (promote_fold_cap now (Z.max (working_size self) 4096)
              (OD.items (archival_blocks self)) self) as [Hcap Hpos1];
    try assumption; try lia.
  - apply NoDup_keys.
  - intros k b Hin. now apply in_items_get.
  - fold (promote_pass now self) in Hcap, Hpos1.
    split; [assumption|].
    unfold _reorganize_memories.
    assert (Hdem : working_size (demote_pass now (promote_pass now self)) <=
                   Z.max (working_size self) 4096 /\
                   all_blocks (fun b => 0 <= size_bytes b)
                              (demote_pass now (promote_pass now self))).
    { unfold demote_pass.
      apply (fold_invariant
               (fun s => working_size s <= Z.max (working_size self) 4096 /\
                         all_blocks (fun b => 0 <= size_bytes b) s));
        [|auto].
      intros s [path b] [Hs Hp]. unfold demote_step.
      destruct (_ <? _); [|auto]. split.
      - pose proof (working_size_move_out path ARCHIVAL s
                      ltac:(discriminate) Hp). lia.
      - apply all_blocks_move; [exact nonneg_tier | assumption]. }
    unfold archive_pass.
    apply (fold_invariant
             (fun s => working_size s <= Z.max (working_size self) 4096));
      [|tauto].
    intros s [path b] Hs. unfold archive_step.
    destruct (_ <? _); [|assumption].
    now rewrite working_size_move_aside.
Qed.

Lemma reorganize_respects_cap_witness :
  sizes_consistent hot_and_cold /\
  working_size (_reorganize_memories 150 hot_and_cold) <=
    Z.max (working_size hot_and_cold) 4096.
Proof.
  assert (H : sizes_consistent hot_and_cold).
  { intros t k b Hb. unfold block_at in Hb. destruct t; simpl in Hb;
      try discriminate.
    destruct (str_eqb k (lit "hot")); [now inversion Hb|].
    destruct (str_eqb k (lit "cold")); [now inversion Hb|discriminate]. }
  split; [exact H|].
  exact (proj2 (reorganize_respects_cap 150 hot_and_cold H)).
Defined.

(* ================================================================== *)
(** * What the reorganizer keeps *)
(* ================================================================== *)

(** Under exclusivity a move keeps the data of every block: the block
    stays where it is or arrives in the target tier with its tier field
    set. *)
Lemma move_keeps_data path f t self k b :
  exclusive self ->
  (exists t' b', block_at self t' k = Some b' /\ same_data b b') ->
  exists t' b',
    block_at (_move_between_tiers path f t self) t' k = Some b' /\
    same_data b b'.
Proof.
  intros Hex (t' & b' & Hb' & Hsame).
  destruct (Exclusivity.str_eq_dec k path) as [->|Hne].
  - destruct (block_at self f path) as [bf|] eqn:Hf.
    + assert (t' = f) by (apply (Hex path); congruence). subst t'.
      assert (bf = b') by congruence. subst bf.
      exists t, (set_tier t b'). split; [now apply move_target|].
      unfold same_data in *. rewrite Hsame. reflexivity.
    + rewrite move_absent by assumption. eauto.
  - exists t', b'. split; [|assumption]. now rewrite move_other_key.
Qed.

(** X16. The reorganizer loses nothing: if no key is held by two tiers,
    every block held before a run is held after it, by one tier only,
    with the same content, size, access count and timestamps; only its
    tier field can differ. *)
Theorem reorganize_keeps_blocks (now : Z) (self : AdvancedMemory)
    (t : MemoryTier) (k : str) (b : MemoryBlock) :
  exclusive self ->
  block_at self t k = Some b ->
  exists t' b',
    block_at (_reorganize_memories now self) t' k = Some b' /\
    same_data b b' /\
    (forall t'', t'' <> t' ->
       block_at (_reorganize_memories now self) t'' k = None).
Proof.
  intros Hex Hb.
  assert (H : exclusive (_reorganize_memories now self) /\
              exists t' b',
                block_at (_reorganize_memories now self) t' k = Some b' /\
                same_data b b').
  { unfold _reorganize_memories, archive_pass, demote_pass, promote_pass.
    repeat (apply (fold_invariant
                     (fun s => exclusive s /\
                               exists t' b', block_at s t' k = Some b' /\
                                             same_data b b'));
            [intros s [path blk] [Hs Hk];
             unfold promote_step, demote_step, archive_step;
             repeat match goal with
                    | |- context [if ?c then _ else _] => destruct c
                    end;
             try (split; assumption);
             (split; [now apply Exclusivity.move_exclusive
                     |now apply move_keeps_data])|]).
    split; [assumption|]. exists t, b. split; [assumption|reflexivity]. }
  destruct H as [Hex' (t' & b' & Hb' & Hsame)].
  exists t', b'. repeat split; try assumption.
  intros t'' Hne.
  destruct (block_at (_reorganize_memories now self) t'' k) eqn:E;
    [|reflexivity].
  exfalso. apply Hne. apply (Hex' k); congruence.
Qed.

Lemma reorganize_keeps_blocks_witness :
  (exclusive hello_store /\
   block_at hello_store WORKING (lit "a") =
     Some (mkBlock (lit "hello") WORKING 0 0 (1 # 2) 0 5)) /\
  exists t' b',
    block_at (_reorganize_memories 4000 hello_store) t' (lit "a") = Some b' /\
    same_data (mkBlock (lit "hello") WORKING 0 0 (1 # 2) 0 5) b'.
Proof.
  assert (H1 : exclusive hello_store).
  { apply (Exclusivity.create_absent_exclusive 0 init (lit "/memories/a")
             (lit "hello")); [reflexivity | apply Exclusivity.exclusive_init]. }
  assert (H2 : block_at hello_store WORKING (lit "a") =
               Some (mkBlock (lit "hello") WORKING 0 0 (1 # 2) 0 5))
    by reflexivity.
  split; [auto|].
  destruct (reorganize_keeps_blocks 4000 hello_store WORKING (lit "a") _
              H1 H2) as (t' & b' & Hb' & Hsame & _).
  exists t', b'. auto.
Defined.

(* ================================================================== *)
(** * Access history and held keys *)
(* ================================================================== *)

Module HistoryFacts.





















End HistoryFacts.

Import HistoryFacts.




(* ================================================================== *)
(** * When exclusivity is kept *)
(* ================================================================== *)

Lemma create_exclusive_when now self path text :
  (forall t, t <> _determine_tier now self (_validate_path path) text ->
     block_at self t (_validate_path path) = None) ->
  exclusive self -> exclusive (snd (create now self path text)).
Proof.
  intros Hothers Hex. unfold create. simpl snd.
  set (tier := _determine_tier now self (_validate_path path) text) in *.
  apply (Exclusivity.exclusive_new_key self _ tier (_validate_path path));
    [| |assumption].
  - intros t' Ht'. unfold block_at. rewrite blocks_set_other by congruence.
    now apply Hothers.
  - intros t' k Hk Hnone. unfold block_at in *.
    destruct (Exclusivity.tier_eq_dec tier t') as [<-|Hne].
    + rewrite blocks_set_same. now rewrite get_set_other.
    + now rewrite blocks_set_other.
Qed.

(** X18. Tier exclusivity is kept by every call but a [create] that the
    placement policy sends to another tier than one that already holds
    the key: a call of any other command keeps it, and so does a [create]
    when no tier other than the chosen one holds the key. *)
Theorem exclusivity_preserved (now : Z) (self : AdvancedMemory)
    (input : tool_input) :
  exclusive self ->
  (command input = Some (PyStr (lit "create")) ->
   forall p t,
     path input = Some p ->
     t <> _determine_tier now self (_validate_path p)
            (get_or [] (file_text input)) ->
     block_at self t (_validate_path p) = None) ->
  exclusive (snd (handle_tool_call now self input)).
Proof.
  intros Hex Hcreate.
  destruct (command input) as [c|] eqn:Hcmd;
    [|apply Exclusivity.exclusive_kept_without_create;
      [congruence | assumption]].
  destruct c;
    try (apply Exclusivity.exclusive_kept_without_create;
         [congruence | assumption]).
  destruct (Exclusivity.str_eq_dec s (lit "create")) as [->|Hne];
    [|apply Exclusivity.exclusive_kept_without_create;
      [congruence | assumption]].
  rewrite (dispatch_known now self input _ _handle_create Hcmd eq_refl).
  unfold _handle_create.
  destruct (path input) as [[|ch p]|] eqn:Hp; simpl snd;
    try (apply Exclusivity.reorganize_if_needed_exclusive;
         eapply Exclusivity.exclusive_same_blocks; [|exact Hex];
         intros t; now destruct t).
  apply Exclusivity.reorganize_if_needed_exclusive.
  apply create_exclusive_when.
  - intros t Ht. rewrite determine_tier_bump in Ht.
    exact (Hcreate eq_refl (ch :: p) t eq_refl Ht).
  - eapply Exclusivity.exclusive_same_blocks; [|exact Hex].
    intros t; now destruct t.
Qed.

Lemma exclusivity_preserved_witness :
  exclusive hello_store /\
  exclusive (snd (handle_tool_call 9 hello_store
                    (call_create (lit "/memories/a") (lit "again")))).
Proof.
  assert (H1 : exclusive hello_store).
  { apply (Exclusivity.create_absent_exclusive 0 init (lit "/memories/a")
             (lit "hello")); [reflexivity | apply Exclusivity.exclusive_init]. }
  split; [exact H1|].
  apply (exclusivity_preserved 9 hello_store
           (call_create (lit "/memories/a") (lit "again")) H1).
  intros _ p t Hp Ht. inversion Hp; subst p.
  destruct t; try reflexivity. exfalso. apply Ht. reflexivity.
Defined.

(* ================================================================== *)
(** * Sizes after a replacement *)
(* ================================================================== *)

Module LengthFacts.

Lemma total_len_cons (p : str) ps :
  total_len (p :: ps) = len p + total_len ps.
Proof. reflexivity. Qed.

Lemma len_cons {A} (x : A) l : len (x :: l) = 1 + len l.
Proof. unfold len. simpl List.length. lia. Qed.

Lemma len_join (sep : str) (ps : list str) :
  ps <> [] -> len (join sep ps) = total_len ps + (len ps - 1) * len sep.
Proof.
  induction ps as [|p ps IH]; [congruence|]. intros _.
  destruct ps as [|q ps].
  - simpl. unfold total_len, len. simpl. lia.
  - rewrite join_cons by discriminate. rewrite !len_app, IH by discriminate.
    rewrite !total_len_cons, !len_cons. lia.
Qed.

Lemma len_interleave (new s : str) :
  len (flat_map (fun c => c :: new) s) = len s * (1 + len new).
Proof.
  induction s as [|c s IH]; [reflexivity|].
  simpl flat_map. rewrite len_cons, len_app, IH, len_cons. lia.
Qed.

Lemma interleave_nothing (s : str) : flat_map (fun c => [c]) s = s.
Proof. induction s as [|c s IH]; [reflexivity|]. simpl. now rewrite IH. Qed.

(** The length of [s.replace(old, new)]. *)
Lemma len_replace (old new s : str) :
  len (replace old new s) = len s + count old s * (len new - len old).
Proof.
  destruct old as [|o os].
  - unfold replace, count. rewrite len_app, len_interleave.
    change (len (@nil char)) with 0. lia.
  - destruct (replace_pieces (o :: os) new s ltac:(discriminate))
      as (Hk & _ & Hs & Hr).
    assert (Hne : split (o :: os) s <> []).
    { intros E. rewrite E in Hk. change (len (@nil str)) with 0 in Hk.
      pose proof (count_nonneg (o :: os) s). lia. }
    rewrite Hr. rewrite Hs at 2.
    rewrite !len_join by assumption. rewrite Hk. lia.
Qed.

Lemma replace_same (old s : str) : replace old old s = s.
Proof.
  destruct old as [|o os].
  - unfold replace. simpl. apply interleave_nothing.
  - destruct (replace_pieces (o :: os) (o :: os) s ltac:(discriminate))
      as (_ & _ & Hs & Hr).
    congruence.
Qed.

End LengthFacts.

Import LengthFacts.

(** X19. After a successful [str_replace] the recorded size is the old
    content's length plus, for each of the [k] occurrences counted,
    the difference of the lengths of [new_str] and [old_str]; replacing a
    string by itself leaves the content as it was. *)
Theorem str_replace_size (now : Z) (self : AdvancedMemory)
    (path old new : str) (t : MemoryTier) (b : MemoryBlock) :
  _find_in_tiers self (_validate_path path) = Some (t, b) ->
  contains old (content b) = true ->
  exists t' b',
    block_at (snd (str_replace now self path old new)) t'
             (_validate_path path) = Some b' /\
    size_bytes b' =
      len (content b) + count old (content b) * (len new - len old) /\
    (new = old -> content b' = content b).
Proof.
  intros Hfind Hin. unfold str_replace. rewrite Hfind, Hin. simpl snd.
  destruct (store_mutated_block now self (_validate_path path) t b
              (replace old new (content b)))
    as (t' & b' & Hb & Hc & Hs & _).
  exists t', b'. split; [assumption|]. split.
  - rewrite Hs. apply len_replace.
  - intros ->. rewrite Hc. apply replace_same.
Qed.

Lemma str_replace_size_witness :
  (_find_in_tiers aabb_store (_validate_path (lit "/memories/a")) =
     Some (WORKING, mkBlock (lit "aabb") WORKING 0 0 (1 # 2) 0 4) /\
   contains (lit "b") (lit "aabb") = true) /\
  exists t' b',
    block_at (snd (str_replace 1 aabb_store (lit "/memories/a") (lit "b")
                               (lit "xyz")))
             t' (_validate_path (lit "/memories/a")) = Some b' /\
    size_bytes b' = 4 + 2 * (3 - 1).
Proof.
  assert (H1 : _find_in_tiers aabb_store (_validate_path (lit "/memories/a"))
               = Some (WORKING, mkBlock (lit "aabb") WORKING 0 0 (1 # 2) 0 4))
    by (vm_compute; reflexivity).
  assert (H2 : contains (lit "b") (lit "aabb") = true)
    by (vm_compute; reflexivity).
  split; [auto|].
  destruct (str_replace_size 1 aabb_store (lit "/memories/a") (lit "b")
              (lit "xyz") WORKING _ H1 H2) as (t' & b' & Hb & Hs & _).
  exists t', b'. split; [exact Hb | exact Hs].
Defined.

(* ================================================================== *)
(** * Lines *)
(* ================================================================== *)

Module LineFacts.

Lemma newline_boundary : is_line_boundary 10%N = true.
Proof. reflexivity. Qed.

(** [splitlines] runs over a stretch with no line break without ending a
    line. *)
Lemma splitlines_from_line (p : str) : forall cur rest,
  one_line p ->
  splitlines_from cur (p ++ rest) = splitlines_from (rev p ++ cur) rest.
Proof.
  induction p as [|c p IH]; intros cur rest Hp; [reflexivity|].
  apply Forall_cons_iff in Hp as [Hc Hp].
  simpl app. cbn [splitlines_from]. rewrite Hc.
  rewrite IH by assumption. simpl rev. now rewrite <- app_assoc.
Qed.

Lemma splitlines_from_newline (cur rest : str) :
  splitlines_from cur (newline ++ rest) = rev cur :: splitlines_from [] rest.
Proof.
  unfold newline. simpl app. cbn [splitlines_from].
  rewrite newline_boundary. destruct rest; reflexivity.
Qed.

(** Round trip: lines without line breaks, the last of them not empty,
    are what [splitlines] reads from their join. *)
Lemma splitlines_join (lines : list str) :
  Forall one_line lines ->
  last lines [] <> [] ->
  splitlines (join newline lines) = lines.
Proof.
  unfold splitlines. induction lines as [|p lines IH]; intros Hall Hlast;
    [reflexivity|].
  apply Forall_cons_iff in Hall as [Hp Hall].
  destruct lines as [|q lines].
  - simpl join. rewrite <- (app_nil_r p) at 1.
    rewrite splitlines_from_line by assumption.
    rewrite app_nil_r. cbn [splitlines_from].
    simpl in Hlast.
    destruct (rev p) eqn:E.
    + apply (f_equal (@rev char)) in E. rewrite rev_involutive in E.
      simpl in E. congruence.
    + rewrite <- E. now rewrite rev_involutive.
  - rewrite join_cons by discriminate.
    rewrite splitlines_from_line by assumption.
    rewrite splitlines_from_newline, app_nil_r, rev_involutive.
    f_equal. apply IH; assumption.
Qed.

Lemma one_line_rev (s : str) : one_line s -> one_line (rev s).
Proof. unfold one_line. apply Forall_rev. Qed.

(** Every line [splitlines] gives is free of line breaks. *)
Lemma splitlines_from_one_line : forall n s cur,
  (List.length s <= n)%nat ->
  one_line cur ->
  Forall one_line (splitlines_from cur s).
Proof.
  induction n as [|n IH]; intros s cur Hlen Hcur.
  - destruct s; [|simpl in Hlen; lia]. simpl.
    destruct cur; constructor; [now apply one_line_rev | constructor].
  - destruct s as [|c s].
    + simpl. destruct cur; constructor;
        [now apply one_line_rev | constructor].
    + cbn [splitlines_from]. simpl in Hlen.
      destruct (is_line_boundary c) eqn:Ec.
      * constructor; [now apply one_line_rev|].
        destruct s as [|d s].
        -- apply IH; [simpl; lia | constructor].
        -- destruct (_ && _); apply IH; simpl in *; try lia; constructor.
      * apply IH; [lia|]. constructor; assumption.
Qed.

Lemma splitlines_one_line (s : str) : Forall one_line (splitlines s).
Proof.
  apply (splitlines_from_one_line (List.length s)); [lia | constructor].
Qed.

Lemma Forall_cut {A} (P : A -> Prop) n (l : list A) :
  Forall P l -> Forall P (firstn n l) /\ Forall P (skipn n l).
Proof.
  intros H. rewrite <- (firstn_skipn n l) in H. now apply Forall_app in H.
Qed.

Lemma inserted_lines_one_line lines line text :
  Forall one_line lines -> one_line text ->
  Forall one_line (inserted_lines lines line text).
Proof.
  intros Hl Ht. unfold inserted_lines, list_insert, pad_lines.
  assert (Hpad : Forall one_line
                   (lines ++ repeat [] (Z.to_nat (line - len lines)))).
  { apply Forall_app. split; [assumption|].
    apply Forall_forall. intros x Hx. apply repeat_spec in Hx. subst x.
    constructor. }
  apply Forall_app. split.
  - now apply Forall_cut.
  - constructor; [assumption|]. now apply Forall_cut.
Qed.

End LineFacts.

Import LineFacts.

(** X20. What [insert] writes reads back line by line: when the inserted
    text holds no line break and the last of the resulting lines is not
    empty, the lines of the new content are the old lines, padded, with
    the text put in at its position. *)
Theorem insert_reads_back (now : Z) (self : AdvancedMemory) (path : str)
    (insert_line : Z) (insert_text : str) (t : MemoryTier)
    (b : MemoryBlock) :
  _find_in_tiers self (_validate_path path) = Some (t, b) ->
  0 <= insert_line ->
  one_line insert_text ->
  last (inserted_lines (splitlines (content b)) insert_line insert_text) []
    <> [] ->
  exists t' b',
    block_at (snd (insert now self path insert_line insert_text)) t'
             (_validate_path path) = Some b' /\
    splitlines (content b') =
    inserted_lines (splitlines (content b)) insert_line insert_text.
Proof.
  intros Hfind Hline Htext Hlast. unfold insert. rewrite Hfind.
  destruct (Z.ltb_spec insert_line 0); [lia|]. simpl snd.
  destruct (store_mutated_block now self (_validate_path path) t b
              (join newline
                 (inserted_lines (splitlines (content b)) insert_line
                                 insert_text)))
    as (t' & b' & Hb & Hc & _).
  exists t', b'. split; [assumption|]. rewrite Hc.
  apply splitlines_join; [|assumption].
  apply inserted_lines_one_line; [apply splitlines_one_line | assumption].
Qed.

Lemma insert_reads_back_witness :
  (_find_in_tiers two_lines (_validate_path (lit "/memories/f")) =
     Some (WORKING,
           mkBlock (lit "A" ++ newline ++ lit "B") WORKING 0 0 (1 # 2) 0 3) /\
   0 <= 5 /\ one_line (lit "X")) /\
  exists t' b',
    block_at (snd (insert 9 two_lines (lit "/memories/f") 5 (lit "X"))) t'
             (_validate_path (lit "/memories/f")) = Some b' /\
    splitlines (content b') = [lit "A"; lit "B"; []; []; []; lit "X"].
Proof.
  assert (H1 : _find_in_tiers two_lines (_validate_path (lit "/memories/f")) =
               Some (WORKING,
                     mkBlock (lit "A" ++ newline ++ lit "B")
                             WORKING 0 0 (1 # 2) 0 3))
    by (vm_compute; reflexivity).
  assert (H2 : 0 <= 5) by lia.
  assert (H3 : one_line (lit "X")) by (repeat constructor).
  assert (H4 : last (inserted_lines
                       (splitlines (content
                          (mkBlock (lit "A" ++ newline ++ lit "B")
                                   WORKING 0 0 (1 # 2) 0 3)))
                       5 (lit "X")) [] <> [])
    by (vm_compute; discriminate).
  split; [auto|].
  exact (insert_reads_back 9 two_lines (lit "/memories/f") 5 (lit "X")
           WORKING _ H1 H2 H3 H4).
Defined.

(** X21. A view range is 1-indexed and inclusive: for
    [1 <= start <= end <= n], with [n] the number of lines, the answer is
    the join of lines [start] to [end], the [end - start + 1] lines after
    the first [start - 1]; a range from 1 or less to [n] or more gives
    all the lines. *)
Theorem view_range_lines (content : str) (first_line last_line : Z) :
  (1 <= first_line -> first_line <= last_line ->
   last_line <= len (splitlines content) ->
   exists before shown after,
     splitlines content = before ++ shown ++ after /\
     len before = first_line - 1 /\
     len shown = last_line - first_line + 1 /\
     view_content content (Some [first_line; last_line]) =
     Returned (join newline shown)) /\
  (first_line <= 1 -> len (splitlines content) <= last_line ->
   view_content content (Some [first_line; last_line]) =
   Returned (join newline (splitlines content))).
Proof.
  unfold view_content, slice.
  set (lines := splitlines content).
  pose proof (len_nonneg lines) as Hn.
  split.
  - intros H1 H2 H3.
    exists (firstn (Z.to_nat (first_line - 1)) lines),
           (firstn (Z.to_nat (last_line - (first_line - 1)))
                   (skipn (Z.to_nat (first_line - 1)) lines)),
           (skipn (Z.to_nat (last_line - (first_line - 1)))
                  (skipn (Z.to_nat (first_line - 1)) lines)).
    split; [now rewrite !firstn_skipn|].
    unfold len in *. split; [rewrite length_firstn; lia|].
    split; [rewrite length_firstn, length_skipn; lia|].
    replace (Z.max 0 (first_line - 1)) with (first_line - 1) by lia.
    replace (Z.min (Z.of_nat (List.length lines)) last_line)
      with last_line by lia.
    destruct (Z.ltb_spec (first_line - 1) 0); [lia|].
    destruct (Z.ltb_spec last_line 0); [lia|].
    replace (Z.min (first_line - 1) (Z.of_nat (List.length lines)))
      with (first_line - 1) by lia.
    replace (Z.min last_line (Z.of_nat (List.length lines)))
      with last_line by lia.
    reflexivity.
  - intros H1 H2. unfold len in *.
    replace (Z.max 0 (first_line - 1)) with 0 by lia.
    replace (Z.min (Z.of_nat (List.length lines)) last_line)
      with (Z.of_nat (List.length lines)) by lia.
    destruct (Z.ltb_spec (Z.of_nat (List.length lines)) 0); [lia|].
    simpl (0 <? 0). cbv iota.
    replace (Z.min 0 (Z.of_nat (List.length lines))) with 0 by lia.
    rewrite Z.min_id, Z.sub_0_r, Nat2Z.id. simpl skipn.
    now rewrite firstn_all.
Qed.

Lemma view_range_lines_witness :
  (1 <= 2 /\ 2 <= 3 /\ 3 <= len (splitlines three_lines)) /\
  exists before shown after,
    splitlines three_lines = before ++ shown ++ after /\
    len before = 2 - 1 /\
    len shown = 3 - 2 + 1 /\
    view_content three_lines (Some [2; 3]) = Returned (join newline shown).
Proof.
  assert (H1 : 1 <= 2) by lia.
  assert (H2 : 2 <= 3) by lia.
  assert (H3 : 3 <= len (splitlines three_lines))
    by (vm_compute; discriminate).
  split; [auto|].
  exact (proj1 (view_range_lines three_lines 2 3) H1 H2 H3).
Defined.


(* ================================================================== *)
(** * Promotion with headroom *)
(* ================================================================== *)

Lemma sum_sizes_in k b (l : list (str * MemoryBlock)) :
  (forall k' b', In (k', b') l -> 0 <= size_bytes b') ->
  In (k, b) l -> size_bytes b <= sum_sizes l.
Proof.
  unfold sum_sizes. induction l as [|[k0 b0] l IH]; intros Hpos Hin;
    [contradiction|].
  simpl. assert (H0 : 0 <= size_bytes b0) by (apply (Hpos k0); now left).
  assert (Hl : forall k' b', In (k', b') l -> 0 <= size_bytes b')
    by (intros k' b' H; apply (Hpos k'); now right).
  destruct Hin as [E|Hin].
  - inversion E; subst.
    assert (0 <= fold_right (fun b acc => size_bytes b + acc) 0 (map snd l)).
    { clear -Hl. induction l as [|[k1 b1] l IH]; simpl; [lia|].
      assert (0 <= size_bytes b1) by (apply (Hl k1); now left).
      assert (0 <= fold_right (fun b acc => size_bytes b + acc) 0
                     (map snd l))
        by (apply IH; intros k' b' H'; apply (Hl k'); now right).
      lia. }
    lia.
  - specialize (IH Hl Hin). lia.
Qed.

(** The promotion loop when everything left to visit fits into working. *)
Lemma promote_fold_headroom now k b items : forall self,
  NoDup (map fst items) ->
  (forall k' b', In (k', b') items -> block_at self ARCHIVAL k' = Some b') ->
  all_blocks (fun b => 0 <= size_bytes b) self ->
  working_size self + sum_sizes items <= 4096 ->
  In (k, b) items ->
  5 < access_count b -> now - last_access b < 300 ->
  block_at (fold_left (promote_step now) items self) ARCHIVAL k = None /\
  block_at (fold_left (promote_step now) items self) WORKING k =
    Some (set_tier WORKING b).
Proof.
  induction items as [|[k0 b0] items IH];
    intros self Hnd Hown Hpos Hroom Hin Hcount Hrecent; [contradiction|].
  simpl in Hnd. inversion Hnd as [|? ? Hnin Hnd']; subst.
  assert (Hb0 : block_at self ARCHIVAL k0 = Some b0)
    by (apply Hown; now left).
  assert (H0 : 0 <= size_bytes b0) by exact (Hpos _ _ _ Hb0).
  assert (Hrest : forall k' b', In (k', b') items ->
            block_at (promote_step now self (k0, b0)) ARCHIVAL k' = Some b').
  { intros k' b' Hin'. rewrite (promote_step_other_key now self k0 b0).
    - apply Hown. now right.
    - intros ->. apply Hnin. apply in_map_iff. now exists (k0, b'). }
  assert (Hpos' : all_blocks (fun b => 0 <= size_bytes b)
                             (promote_step now self (k0, b0))).
  { unfold promote_step. destruct (_ && _); [|assumption].
    destruct (within_limit _ _); [|assumption].
    apply all_blocks_move; [exact nonneg_tier | assumption]. }
  assert (Hroom' : working_size (promote_step now self (k0, b0)) +
                   sum_sizes items <= 4096).
  { change (sum_sizes ((k0, b0) :: items))
      with (size_bytes b0 + sum_sizes items) in Hroom.
    unfold promote_step. destruct (_ && _); [|lia].
    destruct (within_limit _ _); [|lia].
    rewrite (working_size_move_in k0 ARCHIVAL self b0);
      [|discriminate | assumption].
    destruct (block_at self WORKING k0) as [o|] eqn:Ho; [|lia].
    pose proof (Hpos WORKING k0 o Ho). simpl in *. lia. }
  simpl fold_left. destruct Hin as [E|Hin].
  - inversion E; subst k0 b0. clear E.
    rewrite !(fold_other_key _ (promote_step_other_key now)) by assumption.
    unfold promote_step.
    destruct (Z.ltb_spec 5 (access_count b)); [|lia].
    destruct (Z.ltb_spec (now - last_access b) 300); [|lia]. simpl.
    assert (Hfit : within_limit (working_size self + size_bytes b) WORKING
                   = true).
    { unfold within_limit. simpl. apply Z.leb_le.
      change (sum_sizes ((k, b) :: items))
        with (size_bytes b + sum_sizes items) in Hroom.
      assert (0 <= sum_sizes items).
      { clear -Hrest Hpos'. unfold sum_sizes.
        induction items as [|[k1 b1] items IH]; simpl; [lia|].
        assert (0 <= size_bytes b1)
          by (apply (Hpos' ARCHIVAL k1); apply Hrest; now left).
        assert (0 <= fold_right (fun b acc => size_bytes b + acc) 0
                       (map snd items))
          by (apply IH; intros k' b' H'; apply Hrest; now right).
        lia. }
      lia. }
    rewrite Hfit. apply move_moves; [discriminate | assumption].
  - now apply IH.
Qed.

(** X22. Promotion with headroom: an archival block with more than 5
    recorded accesses, last accessed less than 300 seconds ago, is moved
    to working by the promotion pass whenever working has room for the
    whole archival tier beside what it holds. *)
Theorem promotion_with_headroom (now : Z) (self : AdvancedMemory) (k : str)
    (b : MemoryBlock) :
  sizes_consistent self ->
  block_at self ARCHIVAL k = Some b ->
  5 < access_count b -> now - last_access b < 300 ->
  working_size self + sum_sizes (OD.items (archival_blocks self)) <= 4096 ->
  block_at (promote_pass now self) ARCHIVAL k = None /\
  block_at (promote_pass now self) WORKING k = Some (set_tier WORKING b).
Proof.
  intros Hsized Hb Hcount Hrecent Hroom.
  assert (Hpos : all_blocks (fun b => 0 <= size_bytes b) self).
  { intros t k' b' Hb'. rewrite (Hsized t k' b' Hb'). apply len_nonneg. }
  unfold promote_pass.
  apply promote_fold_headroom; try assumption.
  - apply NoDup_keys.
  - intros k' b' Hin. now apply in_items_get.
  - now apply in_items_get.
Qed.

Lemma promotion_with_headroom_witness :
  (sizes_consistent hot_and_cold /\
   block_at hot_and_cold ARCHIVAL (lit "hot") =
     Some (mkBlock (xs 10) ARCHIVAL 6 100 (1 # 2) 0 10) /\
   5 < 6 /\ 150 - 100 < 300 /\
   working_size hot_and_cold +
   sum_sizes (OD.items (archival_blocks hot_and_cold)) <= 4096) /\
  block_at (promote_pass 150 hot_and_cold) WORKING (lit "hot") =
    Some (mkBlock (xs 10) WORKING 6 100 (1 # 2) 0 10).
Proof.
  assert (H1 : sizes_consistent hot_and_cold).
  { intros t k b Hb. unfold block_at in Hb. destruct t; simpl in Hb;
      try discriminate.
    destruct (str_eqb k (lit "hot")); [now inversion Hb|].
    destruct (str_eqb k (lit "cold")); [now inversion Hb|discriminate]. }
  assert (H2 : block_at hot_and_cold ARCHIVAL (lit "hot") =
               Some (mkBlock (xs 10) ARCHIVAL 6 100 (1 # 2) 0 10))
    by reflexivity.
  assert (H3 : 5 < 6) by lia.
  assert (H4 : 150 - 100 < 300) by lia.
  assert (H5 : working_size hot_and_cold +
               sum_sizes (OD.items (archival_blocks hot_and_cold)) <= 4096)
    by (vm_compute; discriminate).
  split; [auto|].
  exact (proj2 (promotion_with_headroom 150 hot_and_cold (lit "hot") _
                  H1 H2 H3 H4 H5)).
Defined.

(* ================================================================== *)
(** * Placement after a rewrite *)
(* ================================================================== *)

Lemma recent_accesses_set_blocks now t d self k :
  recent_accesses now (set_blocks t d self) k = recent_accesses now self k.
Proof.
  unfold recent_accesses, history. now rewrite patterns_set_blocks.
Qed.

(** The working tier's size once a block it holds is rewritten in place. *)
Lemma working_size_rewritten self k b v :
  block_at self WORKING k = Some b ->
  working_size (set_blocks WORKING (OD.set k v (memory_blocks self WORKING))
                           self) =
  working_size self - size_bytes b + size_bytes v.
Proof.
  unfold block_at. simpl. intros Hb. rewrite !working_size_items. simpl.
  rewrite items_set, sum_sizes_set, get_items, Hb. lia.
Qed.

(** X23. A hot key stays in working whatever its size: a [str_replace] on
    a working block whose key has more than 3 accesses recorded in the
    last 300 seconds leaves the block, with the new content, in
    working. *)
Theorem hot_key_stays_in_working (now : Z) (self : AdvancedMemory)
    (path old new : str) (b : MemoryBlock) :
  _find_in_tiers self (_validate_path path) = Some (WORKING, b) ->
  contains old (content b) = true ->
  3 < recent_accesses now self (_validate_path path) ->
  exists b',
    block_at (snd (str_replace now self path old new)) WORKING
             (_validate_path path) = Some b' /\
    content b' = replace old new (content b) /\
    tier b' = tier b.
Proof.
  intros Hfind Hin Hhot. unfold str_replace. rewrite Hfind, Hin. simpl snd.
  unfold store_mutated.
  rewrite determine_tier_unfold, recent_accesses_set_blocks.
  destruct (Z.ltb_spec 3 (recent_accesses now self (_validate_path path)));
    [|lia].
  simpl. eexists. split.
  - unfold block_at. simpl. apply get_set_same.
  - split; reflexivity.
Qed.

Lemma hot_key_stays_in_working_witness :
  (_find_in_tiers hello_hot (_validate_path (lit "/memories/a")) =
     Some (WORKING, mkBlock (lit "hello") WORKING 4 4 (1 # 2) 0 5) /\
   contains (lit "h") (lit "hello") = true /\
   3 < recent_accesses 5 hello_hot (_validate_path (lit "/memories/a"))) /\
  exists b',
    block_at (snd (str_replace 5 hello_hot (lit "/memories/a") (lit "h")
                               (xs 5000)))
             WORKING (_validate_path (lit "/memories/a")) = Some b' /\
    content b' = replace (lit "h") (xs 5000) (lit "hello").
Proof.
  assert (H1 : _find_in_tiers hello_hot (_validate_path (lit "/memories/a"))
               = Some (WORKING, mkBlock (lit "hello") WORKING 4 4 (1 # 2) 0 5))
    by (vm_compute; reflexivity).
  assert (H2 : contains (lit "h") (lit "hello") = true)
    by (vm_compute; reflexivity).
  assert (H3 : 3 < recent_accesses 5 hello_hot
                     (_validate_path (lit "/memories/a")))
    by (vm_compute; reflexivity).
  split; [auto|].
  destruct (hot_key_stays_in_working 5 hello_hot (lit "/memories/a")
              (lit "h") (xs 5000) _ H1 H2 H3) as (b' & Hb & Hc & _).
  exists b'. split; [exact Hb | exact Hc].
Defined.

(** X24. On a rewrite the placement policy counts a working block twice:
    its new size is already part of the working tier's size when it is
    added to it.  With every recorded size the length of its content and
    for a key that is not hot, a [str_replace] leaves a
    working block in working only if the other working blocks plus twice
    its new size stay within 4096; otherwise the block is moved out of
    working, to archival when its new size is at most 102400. *)
Theorem rewrite_counts_block_twice (now : Z) (self : AdvancedMemory)
    (path old new : str) (b : MemoryBlock) :
  sizes_consistent self ->
  _find_in_tiers self (_validate_path path) = Some (WORKING, b) ->
  contains old (content b) = true ->
  recent_accesses now self (_validate_path path) <= 3 ->
  (working_size self - size_bytes b +
   2 * len (replace old new (content b)) <= 4096 ->
   exists b',
     block_at (snd (str_replace now self path old new)) WORKING
              (_validate_path path) = Some b' /\
     content b' = replace old new (content b)) /\
  (4096 < working_size self - size_bytes b +
          2 * len (replace old new (content b)) ->
   block_at (snd (str_replace now self path old new)) WORKING
            (_validate_path path) = None /\
   (len (replace old new (content b)) <= 102400 ->
    exists b',
      block_at (snd (str_replace now self path old new)) ARCHIVAL
               (_validate_path path) = Some b' /\
      content b' = replace old new (content b))).
Proof.
  intros Hsized Hfind Hin Hcold. unfold str_replace. rewrite Hfind, Hin.
  simpl snd.
  pose proof (find_some _ _ _ _ Hfind) as Hb.
  set (key := _validate_path path) in *.
  set (c := replace old new (content b)).
  pose proof (len_nonneg c) as Hc0.
  assert (Hothers : size_bytes b <= working_size self).
  { rewrite working_size_items. apply (sum_sizes_in key).
    - intros k' b' Hin'. apply in_items_get in Hin'.
      rewrite (Hsized WORKING k' b' Hin'). apply len_nonneg.
    - now apply in_items_get. }
  unfold store_mutated.
  set (b1 := update_access now (set_size_bytes (len c) (set_content c b))).
  set (self1 := set_blocks WORKING (OD.set key b1 (memory_blocks self WORKING))
                           self).
  assert (Hws : working_size self1 = working_size self - size_bytes b + len c)
    by (unfold self1; now rewrite (working_size_rewritten self key b b1 Hb)).
  assert (Hb1 : block_at self1 WORKING key = Some b1)
    by (unfold self1, block_at; simpl; apply get_set_same).
  assert (Hrec : recent_accesses now self1 key =
                 recent_accesses now self key)
    by apply recent_accesses_set_blocks.
  rewrite determine_tier_unfold, !Hrec.
  destruct (Z.ltb_spec 3 (recent_accesses now self key)); [lia|].
  unfold tier_by_size, within_limit. simpl TIER_LIMITS. cbv iota.
  change (content b1) with c. rewrite Hws.
  split.
  - intros Hfit.
    destruct (Z.leb_spec (len c) 4096); [|lia].
    destruct (Z.leb_spec (working_size self - size_bytes b + len c + len c)
                         4096); [|lia].
    simpl. exists b1. split; [assumption | reflexivity].
  - intros Hover.
    assert (Hnofit : (len c <=? 4096) &&
                     (working_size self - size_bytes b + len c + len c
                      <=? 4096) = false).
    { apply andb_false_iff. right. apply Z.leb_gt. lia. }
    rewrite Hnofit.
    destruct (Z.leb_spec (len c) 102400); cbn [negb tier_eqb].
    + destruct (move_moves key WORKING ARCHIVAL self1 b1
                  ltac:(discriminate) Hb1) as [Hw Ha].
      split; [assumption|]. intros _. eexists. split; [exact Ha|reflexivity].
    + destruct (move_moves key WORKING OVERFLOW self1 b1
                  ltac:(discriminate) Hb1) as [Hw _].
      split; [assumption|]. intros; lia.
Qed.

Lemma rewrite_counts_block_twice_witness :
  (sizes_consistent one_large_file /\
   _find_in_tiers one_large_file (_validate_path (lit "/memories/a")) =
     Some (WORKING, mkBlock (xs 2100) WORKING 0 0 (1 # 2) 0 2100) /\
   contains (lit "x") (xs 2100) = true /\
   recent_accesses 1 one_large_file (_validate_path (lit "/memories/a")) <= 3
   /\
   4096 < working_size one_large_file - 2100 +
          2 * len (replace (lit "x") (lit "y") (xs 2100))) /\
  block_at (snd (str_replace 1 one_large_file (lit "/memories/a") (lit "x")
                             (lit "y")))
           WORKING (_validate_path (lit "/memories/a")) = None.
Proof.
  assert (H1 : _find_in_tiers one_large_file
                 (_validate_path (lit "/memories/a")) =
               Some (WORKING, mkBlock (xs 2100) WORKING 0 0 (1 # 2) 0 2100))
    by (vm_compute; reflexivity).
  assert (H2 : contains (lit "x") (xs 2100) = true)
    by (vm_compute; reflexivity).
  assert (H3 : recent_accesses 1 one_large_file
                 (_validate_path (lit "/memories/a")) <= 3)
    by (vm_compute; discriminate).
  assert (H4 : 4096 < working_size one_large_file - 2100 +
                      2 * len (replace (lit "x") (lit "y") (xs 2100)))
    by (vm_compute; reflexivity).
  assert (H0 : sizes_consistent one_large_file)
    by (apply (sizes_create 0 init); intros [] k b Hb; discriminate).
  split; [auto 6|].
  exact (proj1 (proj2 (rewrite_counts_block_twice 1 one_large_file
                         (lit "/memories/a") (lit "x") (lit "y") _
                         H0 H1 H2 H3) H4)).
Defined.
